(** * Storefront cart and pricing rules (src/main.js, src/products.mjs)

    A shallow embedding of the cart store and of the pricing rules of the
    storefront page, and the properties of its specification.

    Conventions of the embedding.
    - A JavaScript number is [jsnum]: an exact rational, or [NaN].  The
      rounding of IEEE doubles and the infinities are not modelled; every
      literal of the source (1.15, 0.9, 0.1, 25, 800, ...) is the rational it
      denotes.
    - [new Date()] reads the wall clock.  The clock is a function from the
      number of reads made so far to the [Date] that read returns; code that
      calls [new Date()] lives in the small state monad [Eff].
    - The catalogue array [products] is a heap of objects.  The cart holds
      references to those very objects (indices into the heap), as the source
      pushes the catalogue object itself into the cart.
    - Writes to the page are kept where a later step reads them back (the
      text of [#cartTotal]); rendering that nothing reads is left out. *)

From Stdlib Require Import QArith Qcanon Qround Lqa Sorted.
From Stdlib Require Import Ascii String DecimalString DecimalPos DecimalN.
From stdpp Require Import numbers strings list fin_maps gmap.

Local Open Scope Z_scope.

(** ** JavaScript numbers *)

Module Js.

Inductive jsnum : Type :=
  | Num (q : Qc)
  | NaN.

#[global] Instance jsnum_eq_dec : EqDecision jsnum.
Proof. solve_decision. Defined.

(** An integer literal and a decimal literal [n / d]. *)
Definition int (z : Z) : jsnum := Num (Qc_of_Z z).
Definition dec (n : Z) (d : positive) : jsnum := Num (Q2Qc (n # d)).

Definition add (a b : jsnum) : jsnum :=
  match a, b with Num x, Num y => Num (x + y)%Qc | _, _ => NaN end.
Definition sub (a b : jsnum) : jsnum :=
  match a, b with Num x, Num y => Num (x - y)%Qc | _, _ => NaN end.
Definition mul (a b : jsnum) : jsnum :=
  match a, b with Num x, Num y => Num (x * y)%Qc | _, _ => NaN end.

(** Comparisons: every comparison with [NaN] is false. *)
Definition le (a b : jsnum) : bool :=
  match a, b with Num x, Num y => bool_decide (x ≤ y)%Qc | _, _ => false end.
Definition lt (a b : jsnum) : bool :=
  match a, b with Num x, Num y => bool_decide (x < y)%Qc | _, _ => false end.
Definition ge (a b : jsnum) : bool := le b a.
Definition gt (a b : jsnum) : bool := lt b a.

(** [ToNumber] of a property read: a missing property is [undefined], which
    arithmetic turns into [NaN]. *)
Definition toNumber (v : option jsnum) : jsnum :=
  match v with Some x => x | None => NaN end.

(** [v || 0] for a property read [v]: [undefined], [0] and [NaN] are falsy. *)
Definition orZero (v : option jsnum) : jsnum :=
  match v with
  | Some (Num q) => if decide (q = 0%Qc) then int 0 else Num q
  | Some NaN | None => int 0
  end.

End Js.

Import Js.

Declare Scope js_scope.
Delimit Scope js_scope with js.
Infix "+" := Js.add : js_scope.
Infix "-" := Js.sub : js_scope.
Infix "*" := Js.mul : js_scope.
Infix "<=?" := Js.le : js_scope.
Infix "<?" := Js.lt : js_scope.
Infix ">=?" := Js.ge : js_scope.
Infix ">?" := Js.gt : js_scope.

(** ** The wall clock *)

(** What the pricing rules read of a [Date]: [getDay()] (0 = Sunday ...
    6 = Saturday), [getHours()] and [getMinutes()], in local time. *)
Record Date : Type := mkDate {
  getDay : Z;
  getHours : Z;
  getMinutes : Z
}.

#[global] Instance Date_eq_dec : EqDecision Date.
Proof. solve_decision. Defined.

(** A date as the clock can return it. *)
Definition validDate (d : Date) : Prop :=
  0 <= getDay d <= 6 /\ 0 <= getHours d <= 23 /\ 0 <= getMinutes d <= 59.

(** [Clock k] is the value of the [k]-th evaluation of [new Date()]. *)
Definition Clock : Type := nat -> Date.

(** Computations that read the clock: the state is the number of reads. *)
Definition Eff (A : Type) : Type := Clock -> nat -> A * nat.

#[global] Instance Eff_ret : MRet Eff := fun A (a : A) _ n => (a, n).
#[global] Instance Eff_bind : MBind Eff := fun A B (k : A -> Eff B) (m : Eff A) c n =>
  let '(a, n') := m c n in k a c n'.

Definition newDate : Eff Date := fun c n => (c n, S n).

(** ** 3. Pricing rules *)

(** The test of [calculateProductPrice] on the date it has read. *)
Definition isWeekendSurcharge (now : Date) : bool :=
  let dayOfWeek := getDay now in
  let hours := getHours now in
  let minutes := getMinutes now in
  let currentTimeInMinutes := hours * 60 + minutes in
  let fridayStart := (dayOfWeek =? 5) && (currentTimeInMinutes >=? 900) in
  let saturday := dayOfWeek =? 6 in
  let sundayToMondayNight :=
    ((dayOfWeek =? 0) || (dayOfWeek =? 1)) && (currentTimeInMinutes <? 180) in
  fridayStart || saturday || sundayToMondayNight.

(** The price [calculateProductPrice] returns once [now] is read. *)
Definition priceAt (now : Date) (basePrice : jsnum) : jsnum :=
  if isWeekendSurcharge now then (basePrice * dec 115 100)%js else basePrice.

Definition calculateProductPrice (basePrice : jsnum) : Eff jsnum :=
  now ← newDate;
  mret (priceAt now basePrice).

(** The object [applyBulkDiscount] returns. *)
Module Bulk.
Record t : Type := mk {
  price : jsnum;
  discountApplied : bool;
  discountPercentage : Z
}.
End Bulk.

Definition BULK_THRESHOLD : jsnum := int 10.

Definition applyBulkDiscount (quantity basePrice : jsnum) : Bulk.t :=
  if (quantity >=? BULK_THRESHOLD)%js
  then Bulk.mk (basePrice * dec 9 10)%js true 10
  else Bulk.mk basePrice false 0.

Definition INVOICE_LIMIT : jsnum := int 800.

Definition isInvoicePaymentAllowed (totalAmount : jsnum) : bool :=
  (totalAmount <=? INVOICE_LIMIT)%js.

(** ** The catalogue (src/products.mjs) *)

Record Img : Type := mkImg {
  src : string;
  width : Z;
  height : Z;
  alt : string
}.

(** A product object.  [amount] is the property the cart code adds to the
    object; [None] is an object that does not have it. *)
Module Product.
Record t : Type := mk {
  id : Z;
  name : string;
  price : jsnum;
  category : string;
  img : Img;
  amount : option jsnum
}.

(** [product.amount = v]. *)
Definition setAmount (v : jsnum) (p : t) : t :=
  mk (id p) (name p) (price p) (category p) (img p) (Some v).

(** The properties the catalogue file gives a product. *)
Definition catalogFields (p : t) : Z * string * jsnum * string * Img :=
  (id p, name p, price p, category p, img p).
End Product.

#[global] Instance Img_eq_dec : EqDecision Img.
Proof. solve_decision. Defined.
#[global] Instance Product_eq_dec : EqDecision Product.t.
Proof. solve_decision. Defined.

Definition item (i : Z) (n : string) (p : Z) (c : string) (file a : string)
  : Product.t :=
  Product.mk i n (int p) c (mkImg file 200 200 a) None.

Definition riceCookie : Product.t :=
  item 11 "Rice Cookie" 29 "snacks"
    "./images/riceCookie.webp" "A rice cookie.".

Definition mochi : Product.t :=
  item 12 "Mochi" 49 "snacks"
    "./images/mochi.webp" "Three mochi's on a plater.".

Definition icedPeachTea : Product.t :=
  item 31 "Iced Peach Tea" 29 "drinks"
    "./images/icedPeachTea.webp"
    "A glass of iced tea with peach bits on top.".

Definition products : list Product.t := [
  riceCookie;
  mochi;
  item 13 "Sticky rice with Mango" 79 "snacks"
    "./images/stickyRiceWithMango.webp"
    "A glasscup with stickyrice and mango-bites.";
  item 14 "Vietnamese spring roll" 99 "snacks"
    "./images/vietnameseSpringRolls.webp"
    "A plater with four springrolls and a dipsauce.";
  item 21 "Vietnamese Fried Rice" 149 "food"
    "./images/vietnameseFriedRice.webp"
    "A plater with fried rice and vegtables and shrimp-crackers.";
  item 22 "Vietnamese noodle soup with beef" 179 "food"
    "./images/vietnameseNoodleSoupWithBeef.webp"
    "A bowl of noodle soup with leeks and meet on top.";
  item 23 "Rice noodles with fried spring rolls " 179 "food"
    "./images/riceNoodlesWithFriedSpringRolls.webp"
    "Six different bowls containing vegetables, chillis, rice noodles, fried spring rolls in a dipsauce and fresh garlic.";
  item 24 "Broken rice with pork" 129 "food"
    "./images/brokenRiceWithPork.webp"
    "Broken rice with bits of marinaded pork.";
  icedPeachTea;
  item 32 "Vietnamese Drip-Coffee" 49 "drinks"
    "./images/vietnameseDripCoffee.webp"
    "A glass with vietnamese coffe and a drip-coffee accescory on the side.";
  item 33 "Strawberry Lemonade" 59 "drinks"
    "./images/strawberryLemonade.webp"
    "A glass of lemonade with a pinkish colour due to the added strawberry.";
  item 34 "Mojito (Non-Alcoholic)" 59 "drinks"
    "./images/mojito(Non-Alcoholic).webp"
    "A glass of non-alcoholic mojito with some fresh mints on top."
].

(** ** 5. Shopping cart management *)

(** The two global arrays.  [heap] is the array [products] with its objects
    as they are now; [cart] lists references to objects of [heap], by
    position in [heap] (the array [products] is never reordered: filtering
    and sorting work on the copy [filteredProducts]). *)
Record Store : Type := mkStore {
  heap : list Product.t;
  cart : list nat
}.

#[global] Instance Store_eq_dec : EqDecision Store.
Proof. solve_decision. Defined.

(** The page as loaded: the catalogue, and [const cart = []]. *)
Definition startup (catalog : list Product.t) : Store := mkStore catalog [].

(** The objects of the cart, in cart order. *)
Definition lines (s : Store) : list Product.t :=
  omap (fun r => heap s !! r) (cart s).

(** [products.find(product => product.id === clickedBtnId)]: the first
    object with that id, as a reference. *)
Definition findProduct (clickedBtnId : Z) (s : Store) : option nat :=
  fst <$> list_find (fun p => Product.id p = clickedBtnId) (heap s).

(** [cart.findIndex(product => product.id === clickedBtnId)]; [None] is
    the result -1. *)
Definition findIndex (clickedBtnId : Z) (s : Store) : option nat :=
  fst <$> list_find
    (fun r => Product.id <$> heap s !! r = Some clickedBtnId) (cart s).

(** [cart[rowId]]: [undefined] outside the array. *)
Definition cartAt (rowId : Z) (s : Store) : option nat :=
  if rowId <? 0 then None else cart s !! Z.to_nat rowId.

(** [addProductToCart(evt)], with [clickedBtnId = Number(evt.target.dataset.id)]
    and [inputValue = Number(inputField.value)], the number in the amount
    field of the product's listing. *)
Definition addProductToCart (clickedBtnId : Z) (inputValue : jsnum)
    (s : Store) : Store :=
  match findProduct clickedBtnId s with
  | None => s
  | Some product =>
    let amount := inputValue in
    if (amount <=? int 0)%js then s
    else match findIndex clickedBtnId s with
         | None =>
           mkStore (alter (Product.setAmount amount) product (heap s))
                   (cart s ++ [product])
         | Some index =>
           match cart s !! index with
           | Some line =>
             mkStore
               (alter (fun p => Product.setAmount
                         (toNumber (Product.amount p) + amount)%js p)
                      line (heap s))
               (cart s)
           | None => s
           end
         end
  end.

(** [decreaseProductFromCart(e)], with [rowId = Number(e.target.dataset.id)]. *)
Definition decreaseProductFromCart (rowId : Z) (s : Store) : Store :=
  match cartAt rowId s with
  | Some product =>
    match heap s !! product with
    | Some p =>
      if (toNumber (Product.amount p) >? int 0)%js
      then mkStore
             (alter (fun p => Product.setAmount
                       (toNumber (Product.amount p) - int 1)%js p)
                    product (heap s))
             (cart s)
      else s
    | None => s
    end
  | None => s
  end.

(** [increaseProductFromCart(e)]. *)
Definition increaseProductFromCart (rowId : Z) (s : Store) : Store :=
  match cartAt rowId s with
  | Some product =>
    mkStore
      (alter (fun p => Product.setAmount
                (toNumber (Product.amount p) + int 1)%js p)
             product (heap s))
      (cart s)
  | None => s
  end.

(** [arr.splice(start, 1)]: a negative [start] counts from the end. *)
Definition splice1 {A} (start : Z) (arr : list A) : list A :=
  let len := Z.of_nat (length arr) in
  let from := if start <? 0 then Z.max (len + start) 0 else Z.min start len in
  delete (Z.to_nat from) arr.

(** [handleDeleteCartItem(e)]. *)
Definition handleDeleteCartItem (rowId : Z) (s : Store) : Store :=
  mkStore (heap s) (splice1 rowId (cart s)).

(** The cart part of [clearOrder()]: [cart.length = 0]. *)
Definition clearOrder (s : Store) : Store := mkStore (heap s) [].

(** The handlers a user can trigger on the cart. *)
Inductive CartOp : Type :=
  | Add (clickedBtnId : Z) (inputValue : jsnum)
  | Increase (rowId : Z)
  | Decrease (rowId : Z)
  | Delete (rowId : Z)
  | Clear.

Definition step (s : Store) (op : CartOp) : Store :=
  match op with
  | Add i v => addProductToCart i v s
  | Increase r => increaseProductFromCart r s
  | Decrease r => decreaseProductFromCart r s
  | Delete r => handleDeleteCartItem r s
  | Clear => clearOrder s
  end.

Definition run (ops : list CartOp) (s : Store) : Store := foldl step s ops.

(** ** Numbers on the page: [toFixed(2)] and [parseFloat] *)

Definition digitChar (d : Z) : ascii := ascii_of_nat (48 + Z.to_nat d).

(** The decimal digits of a natural number, ["0"] for zero. *)
Definition digits (n : Z) : string :=
  NilEmpty.string_of_uint (N.to_uint (Z.to_N n)).

(** [x.toFixed(2)] for [x >= 0]: [n] is the integer for which [n / 100]
    is closest to [x], the larger one of two; the text is that of [n]
    with a point before its last two digits. *)
Definition fixed2 (x : Qc) : string :=
  let n := Qfloor (x * Q2Qc 100 + Q2Qc (1 # 2))%Qc in
  digits (n / 100) +:+ "." +:+
  String (digitChar (n mod 100 / 10)) (String (digitChar (n mod 10)) "").

(** [x.toFixed(2)], for magnitudes below 10^21. *)
Definition toFixed2 (x : jsnum) : string :=
  match x with
  | NaN => "NaN"
  | Num q => if decide (q < 0)%Qc then "-" +:+ fixed2 (- q)%Qc else fixed2 q
  end.

Definition isDigit (c : ascii) : bool :=
  let n := nat_of_ascii c in (48 <=? n)%nat && (n <=? 57)%nat.

Definition isSpace (c : ascii) : bool :=
  let n := nat_of_ascii c in (n =? 32)%nat || ((9 <=? n)%nat && (n <=? 13)%nat).

Fixpoint skipSpaces (s : string) : string :=
  match s with
  | String c r => if isSpace c then skipSpaces r else s
  | EmptyString => s
  end.

(** The longest prefix of digits, and what follows it. *)
Fixpoint spanDigits (s : string) : string * string :=
  match s with
  | String c r =>
    if isDigit c
    then let '(ds, rest) := spanDigits r in (String c ds, rest)
    else (EmptyString, s)
  | EmptyString => (EmptyString, EmptyString)
  end.

(** The number a string of digits denotes (0 for the empty string). *)
Definition digitsValue (ds : string) : Z :=
  match NilEmpty.uint_of_string ds with
  | Some u => Z.of_N (N.of_uint u)
  | None => 0
  end.

(** The unsigned part of a decimal literal at the start of [s]: digits, a
    point and digits; [NaN] when there is no digit. *)
Definition parseUnsigned (s : string) : jsnum :=
  let '(whole, rest) := spanDigits s in
  let fraction :=
    match rest with
    | String "." r => (spanDigits r).1
    | _ => EmptyString
    end in
  if decide (whole = EmptyString /\ fraction = EmptyString) then NaN
  else Num (Qc_of_Z (digitsValue whole) +
            Qc_of_Z (digitsValue fraction) /
            Qc_of_Z (10 ^ Z.of_nat (String.length fraction)))%Qc.

Definition negate (v : jsnum) : jsnum :=
  match v with Num q => Num (- q)%Qc | NaN => NaN end.

(** [parseFloat(s)]: leading white space, a sign, and the longest decimal
    literal that follows; what comes after it is ignored.  Exponents and
    [Infinity] are not modelled. *)
Definition parseFloat (s : string) : jsnum :=
  match skipSpaces s with
  | String "-" r => negate (parseUnsigned r)
  | String "+" r => parseUnsigned r
  | s' => parseUnsigned s'
  end.

(** ** 6. Cart totals *)

(** What one run of [updateCartTotals()] computes: its local variables,
    and the text it writes into [#cartTotal].  [finalPrices] lists the
    value of the local [finalPrice] of each round of the loop. *)
Record Totals : Type := mkTotals {
  categoryCount : gmap string jsnum;
  finalPrices : list jsnum;
  cartTotal : jsnum;
  bulkDiscountApplied : bool;
  discountAmount : jsnum;
  totalAfterDiscount : jsnum;
  itemCount : jsnum;
  shippingCost : jsnum;
  finalTotal : jsnum;
  cartTotalHTML : string
}.

(** The names that every object inherits from [Object.prototype]: a read
    of one of them from an object created as [{}] finds a function (for
    [__proto__], the prototype object) where no property was stored. *)
Definition objectPrototypeNames : list string :=
  ["constructor"; "__defineGetter__"; "__defineSetter__"; "hasOwnProperty";
   "__lookupGetter__"; "__lookupSetter__"; "isPrototypeOf";
   "propertyIsEnumerable"; "toString"; "valueOf"; "__proto__";
   "toLocaleString"].

(** The [forEach] that fills [categoryCount], an object created as [{}].
    For a category that is one of [objectPrototypeNames],
    [categoryCount[category] || 0] is the inherited value, or the string
    stored for the category in an earlier round, and [+] joins it with the
    amount to a string that is no numeral.  The map holds the value of each
    count as a number, which is what the comparison of [applyBulkDiscount]
    reads: for such a category that is [NaN]. *)
Definition countCategories (ls : list Product.t) : gmap string jsnum :=
  foldl (fun (count : gmap string jsnum) product =>
           <[Product.category product :=
               if bool_decide (Product.category product ∈ objectPrototypeNames)
               then NaN
               else (orZero (count !! Product.category product) +
                     toNumber (Product.amount product))%js]> count)
        ∅ ls.

(** The [for] loop over the cart, from the round of [ls] on; the state is
    [(cartTotal, bulkDiscountApplied)] and the prices of the rounds done. *)
Fixpoint priceLoop (count : gmap string jsnum) (ls : list Product.t)
    (acc : jsnum * bool * list jsnum) : Eff (jsnum * bool * list jsnum) :=
  match ls with
  | [] => mret acc
  | line :: rest =>
    let '(cartTotal, bulkDiscountApplied, prices) := acc in
    priceWithSurcharge ← calculateProductPrice (Product.price line);
    let categoryQuantity := toNumber (count !! Product.category line) in
    let discountResult := applyBulkDiscount categoryQuantity priceWithSurcharge in
    let finalPrice := Bulk.price discountResult in
    let bulkDiscountApplied :=
      if Bulk.discountApplied discountResult then true else bulkDiscountApplied in
    let productSum := (finalPrice * toNumber (Product.amount line))%js in
    priceLoop count rest
      ((cartTotal + productSum)%js, bulkDiscountApplied, prices ++ [finalPrice])
  end.

Definition MONDAY : Z := 1.

Definition updateCartTotals (s : Store) : Eff Totals :=
  let categoryCount := countCategories (lines s) in
  '(cartTotal, bulkDiscountApplied, prices) ←
    priceLoop categoryCount (lines s) (int 0, false, []);
  date ← newDate;
  let discountAmount :=
    if (getDay date =? MONDAY) && (getHours date <? 10)
    then (cartTotal * dec 1 10)%js else int 0 in
  let totalAfterDiscount := (cartTotal - discountAmount)%js in
  let itemCount :=
    foldl (fun sum product => (sum + toNumber (Product.amount product))%js)
          (int 0) (lines s) in
  let shippingCost :=
    if (itemCount >? int 15)%js then int 0
    else if (itemCount >? int 0)%js
         then (int 25 + dec 1 10 * totalAfterDiscount)%js
         else int 0 in
  let finalTotal := (totalAfterDiscount + shippingCost)%js in
  mret (mkTotals categoryCount prices cartTotal bulkDiscountApplied
          discountAmount totalAfterDiscount itemCount shippingCost finalTotal
          (toFixed2 finalTotal +:+ " kr")).

(** ** 8. Payment method selection *)

(** What [handlePaymentMethodToggle] leaves on the page: the invoice
    radio unchecked with the warning shown, or one of the two payment
    sections visible. *)
Inductive PaymentView : Type :=
  | InvoiceRefused
  | InvoiceSection
  | CardSection.

(** [handlePaymentMethodToggle({ target })], with [method = target.value]
    and the text of [#cartTotal]. *)
Definition handlePaymentMethodToggle (method cartTotalText : string)
  : PaymentView :=
  let totalAmount := parseFloat cartTotalText in
  if bool_decide (method = "invoice") && negb (isInvoicePaymentAllowed totalAmount)
  then InvoiceRefused
  else if bool_decide (method = "invoice") then InvoiceSection else CardSection.

(** ** The vocabulary of the specification *)

(** Minutes since Sunday 00:00, and the weekly window
    [Friday 15:00, Monday 03:00) of the specification (it wraps around the
    end of the week).  This definition follows the words of the
    specification, not the code. *)
Definition minuteOfWeek (d : Date) : Z :=
  getDay d * 1440 + getHours d * 60 + getMinutes d.

Definition inSurchargeWindow (d : Date) : bool :=
  (5 * 1440 + 15 * 60 <=? minuteOfWeek d) || (minuteOfWeek d <? 1 * 1440 + 3 * 60).

(** The quantity of a cart line that holds a number. *)
Definition hasQuantity (p : Product.t) : Prop :=
  exists q, Product.amount p = Some (Num q).

Definition quantity (p : Product.t) : Qc :=
  match Product.amount p with Some (Num q) => q | _ => 0%Qc end.

Definition sumQ (l : list Qc) : Qc := foldr Qcplus 0%Qc l.

(** [totalItemCount()] and [categoryQuantity(category)] of the
    specification. *)
Definition totalItemCount (ls : list Product.t) : Qc :=
  sumQ (quantity <$> ls).

Definition categoryQuantity (c : string) (ls : list Product.t) : Qc :=
  sumQ (quantity <$> filter (fun p => Product.category p = c) ls).

(** The ids of the cart lines, in cart order. *)
Definition cartIds (s : Store) : list Z := Product.id <$> lines s.

(** The elements of a list in the order of their first occurrence. *)
Fixpoint firstOccurrences (l : list Z) : list Z :=
  match l with
  | [] => []
  | x :: l => x :: filter (fun y => y <> x) (firstOccurrences l)
  end.

(** An add that gets past the two guards of [addProductToCart]. *)
Definition accepted (catalog : list Product.t) (a : Z * jsnum) : Prop :=
  a.1 ∈ Product.id <$> catalog /\ (a.2 <=? int 0)%js = false.

#[global] Instance accepted_dec catalog a : Decision (accepted catalog a).
Proof. unfold accepted. apply _. Defined.

(** An integer, as a JavaScript number. *)
Definition isInteger (v : jsnum) : Prop := exists z : Z, v = int z.

(** The handler calls the page can make in state [s]: the buy button of a
    listed product, with the number of its amount field (0, 1, 2, ...); the
    - and + buttons of a cart line, whose [data-id] is the id of the line's
    product; the delete button of a cart line, whose [data-id] is the
    position of the line. *)
Definition uiEvent (s : Store) (op : CartOp) : bool :=
  match op with
  | Add i v =>
    bool_decide (i ∈ Product.id <$> heap s) &&
    match v with
    | Num q => bool_decide (Num q = int (Qfloor q)) && bool_decide (0 ≤ q)%Qc
    | NaN => false
    end
  | Increase r | Decrease r => bool_decide (r ∈ cartIds s)
  | Delete r => (0 <=? r) && (r <? Z.of_nat (length (cart s)))
  | Clear => true
  end.

Fixpoint uiTrace (s : Store) (ops : list CartOp) : bool :=
  match ops with
  | [] => true
  | op :: ops => uiEvent s op && uiTrace (step s op) ops
  end.

(** The shape of the store that the handlers keep: no object is in the
    cart twice, and each cart entry refers to an object of the heap that
    [products.find] returns for its own id. *)
Definition cartInv (s : Store) : Prop :=
  NoDup (cart s) /\
  forall r, r ∈ cart s ->
    exists p, heap s !! r = Some p /\ findProduct (Product.id p) s = Some r.

(** An add whose amount is an integer; the other handlers take none. *)
Definition integralOp (op : CartOp) : Prop :=
  match op with
  | Add _ v => isInteger v
  | _ => True
  end.

(** Every cart line holds a whole number that is not negative. *)
Definition amountInv (s : Store) : Prop :=
  forall r, r ∈ cart s ->
    exists p z, heap s !! r = Some p /\ Product.amount p = Some (int z) /\ 0 <= z.

(** Buying one of each product of the catalogue, in catalogue order. *)
Definition buyOneOfEach : list CartOp :=
  (fun p => Add (Product.id p) (int 1)) <$> products.

(** The unit price the loop of [updateCartTotals] charges for a line when
    its clock read returns [now], whether the bulk discount applies to the
    line, and the loop's sum over lines and their unit prices. *)
Definition unitPrice (count : gmap string jsnum) (now : Date)
    (line : Product.t) : jsnum :=
  Bulk.price
    (applyBulkDiscount (toNumber (count !! Product.category line))
       (priceAt now (Product.price line))).

Definition bulkApplies (count : gmap string jsnum) (line : Product.t) : bool :=
  (toNumber (count !! Product.category line) >=? BULK_THRESHOLD)%js.

Fixpoint unitPrices (count : gmap string jsnum) (c : Clock) (n : nat)
    (ls : list Product.t) : list jsnum :=
  match ls with
  | [] => []
  | line :: rest => unitPrice count (c n) line :: unitPrices count c (S n) rest
  end.

Definition subtotals (start : jsnum) (prices : list jsnum)
    (ls : list Product.t) : jsnum :=
  foldl (fun acc pl => (acc + pl.1 * toNumber (Product.amount pl.2))%js)
        start (zip prices ls).

(** A clock whose first read returns one date and every later read
    another: the wall clock moves on while the totals are computed. *)
Definition clockTurning (first later : Date) : Clock :=
  fun k => match k with O => first | S _ => later end.

(** The number of hundredths that [toFixed(2)] shows for [x]: [x] rounded
    to the nearest hundredth, halves away from zero. *)
Definition roundedCents (x : Qc) : Z :=
  if decide (x < 0)%Qc
  then - Qfloor (- x * Q2Qc 100 + Q2Qc (1 # 2))%Qc
  else Qfloor (x * Q2Qc 100 + Q2Qc (1 # 2))%Qc.

(** ** 4. Product display and filtering *)

(** [filterProducts()], with [selectedFilterValue = filterList.value]: the
    new value of [filteredProducts], computed from the array [products].
    The listing reads the catalogue properties of the objects only. *)
Definition filterProducts (selectedFilterValue : string)
    (catalog : list Product.t) : list Product.t :=
  if bool_decide (selectedFilterValue = "all") then catalog
  else filter (fun product => Product.category product = selectedFilterValue)
              catalog.

(** [arr.sort(comparefn)].  The sort of an array is stable, and for a
    consistent [comparefn] its result is the one order in which no element
    [x] stands before an element [y] with [comparefn(x, y) > 0]; a result of
    [NaN] counts as 0.  [insertSorted] puts [x] behind the elements it
    compares greater than. *)
Fixpoint insertSorted {A} (comparefn : A -> A -> jsnum) (x : A) (l : list A)
  : list A :=
  match l with
  | [] => [x]
  | y :: rest =>
    if (comparefn x y >? int 0)%js
    then y :: insertSorted comparefn x rest
    else x :: l
  end.

Definition sortArray {A} (comparefn : A -> A -> jsnum) (arr : list A) : list A :=
  foldr (insertSorted comparefn) [] arr.

(** [sortProducts()], with [selectedSortValue = sortListByPrice.value]: the
    new contents of [filteredProducts]. *)
Definition sortProducts (selectedSortValue : string)
    (filteredProducts : list Product.t) : list Product.t :=
  if bool_decide (selectedSortValue = "low")
  then sortArray (fun product1 product2 =>
                    (Product.price product1 - Product.price product2)%js)
                 filteredProducts
  else sortArray (fun product1 product2 =>
                    (Product.price product2 - Product.price product1)%js)
                 filteredProducts.

(** [increaseProductCount(evt)] and [decreaseProductCount(evt)] on the
    amount field of a listed product: the number [Number(input.value)]
    before the click, and the number written back into the field. *)
Definition increaseProductCount (value : jsnum) : jsnum :=
  (value + int 1)%js.

Definition decreaseProductCount (value : jsnum) : jsnum :=
  let amount := (value - int 1)%js in
  if (amount <? int 0)%js then int 0 else amount.

(** A click on the + or on the - button of a listed product. *)
Inductive Click : Type := Plus | Minus.

Definition click (value : jsnum) (b : Click) : jsnum :=
  match b with
  | Plus => increaseProductCount value
  | Minus => decreaseProductCount value
  end.

(** A price that is a number and not negative, and a cart line with such
    a price and such a quantity. *)
Definition pricedLine (p : Product.t) : Prop :=
  exists a q, Product.price p = Num a /\ (0 ≤ a)%Qc /\
              Product.amount p = Some (Num q) /\ (0 ≤ q)%Qc.

(** The price of a product as a rational (0 when it is not a number). *)
Definition priceValue (p : Product.t) : Qc :=
  match Product.price p with Num a => a | NaN => 0%Qc end.

Definition hasPrice (p : Product.t) : Prop :=
  exists a, Product.price p = Num a.

(** ** 9. Form input formatting *)

(** A JavaScript string as the sequence of its UTF-16 code units, and the
    character classes of the regular expressions of the forms. *)
Module Str.

#[warnings="-notation-for-abbreviation"]
Notation t := (list N) (only parsing).

(** The code units of a literal written in ASCII. *)
Definition lit (s : string) : t := N_of_ascii <$> list_ascii_of_string s.

(** The class [\d]. *)
Definition isDigit (c : N) : bool := (48 <=? c)%N && (c <=? 57)%N.

(** The class [\D]. *)
Definition notDigit (c : N) : bool := negb (isDigit c).

(** The line terminators, which [.] does not match. *)
Definition isLineTerminator (c : N) : bool :=
  bool_decide (c ∈ [10; 13; 0x2028; 0x2029]%N).

(** The class [\s]: white space and line terminators. *)
Definition isWhiteSpace (c : N) : bool :=
  bool_decide (c ∈ [9; 10; 11; 12; 13; 32; 160; 0x1680; 0x2028; 0x2029;
                    0x202f; 0x205f; 0x3000; 0xfeff]%N) ||
  ((0x2000 <=? c)%N && (c <=? 0x200a)%N).

(** [s.replace(/C/g, '')] for a class [C]. *)
Definition removeAll (cls : N -> bool) (s : t) : t :=
  filter (fun c => cls c = false) s.

(** [s.slice(from, to)] for [0 <= from <= to]. *)
Definition slice (from to : nat) (s : t) : t := take (to - from) (drop from s).

(** [parts.join(sep)]. *)
Fixpoint join (sep : t) (parts : list t) : t :=
  match parts with
  | [] => []
  | [x] => x
  | x :: rest => x ++ sep ++ join sep rest
  end.

(** [s.match(/.{1,4}/g)], the empty list standing for [null]: from left
    to right, each match takes as many code units as it can, up to four,
    and stops before a line terminator.  [cur] is the match under way and
    [room] the number of code units it can still take. *)
Fixpoint matchChunks (room : nat) (cur : t) (s : t) : list t :=
  match s with
  | [] => match cur with [] => [] | _ => [cur] end
  | c :: rest =>
    if isLineTerminator c
    then match cur with [] => [] | _ => [cur] end ++ matchChunks 4 [] rest
    else match room with
         | O => cur :: matchChunks 3 [c] rest
         | S room' => matchChunks room' (cur ++ [c]) rest
         end
  end.

End Str.

(** [formatCardNumberInput(e)]: from [e.target.value] to the value written
    back. *)
Definition formatCardNumberInput (targetValue : Str.t) : Str.t :=
  let value := Str.removeAll Str.isWhiteSpace targetValue in
  let formattedValue :=
    match Str.matchChunks 4 [] value with
    | [] => value
    | chunks =>
      match Str.join (Str.lit " ") chunks with
      | [] => value
      | joined => joined
      end
    end in
  formattedValue.

(** [formatExpiryInput(e)]. *)
Definition formatExpiryInput (targetValue : Str.t) : Str.t :=
  let value := Str.removeAll Str.notDigit targetValue in
  if (2 <=? length value)%nat
  then Str.slice 0 2 value ++ Str.lit "/" ++ Str.slice 2 4 value
  else value.

(** [formatCVVInput(e)]. *)
Definition formatCVVInput (targetValue : Str.t) : Str.t :=
  Str.removeAll Str.notDigit targetValue.

(** [formatPhoneNumberInput(e)]. *)
Definition formatPhoneNumberInput (targetValue : Str.t) : Str.t :=
  let value := Str.removeAll Str.notDigit targetValue in
  if (0 <? length value)%nat
  then if (length value <=? 3)%nat then value
       else if (length value <=? 6)%nat
            then Str.lit "(" ++ Str.slice 0 3 value ++ Str.lit ") " ++
                 drop 3 value
            else Str.lit "(" ++ Str.slice 0 3 value ++ Str.lit ") " ++
                 Str.slice 3 6 value ++ Str.lit "-" ++ Str.slice 6 10 value
  else value.

(** ** 7. Form validation *)

(** Regular expressions over code units: the patterns of
    [validationPatterns] use classes, sequence, choice, repetition and, at
    their start, negative lookahead, which for a pattern anchored at both
    ends is the intersection with a complement. *)
Module Re.

Inductive t : Type :=
  | Void
  | Eps
  | Chr (cls : N -> bool)
  | Seq (a b : t)
  | Alt (a b : t)
  | Star (a : t)
  | And (a b : t)
  | Not (a : t).

Fixpoint nullable (r : t) : bool :=
  match r with
  | Void => false
  | Eps => true
  | Chr _ => false
  | Seq a b => nullable a && nullable b
  | Alt a b => nullable a || nullable b
  | Star _ => true
  | And a b => nullable a && nullable b
  | Not a => negb (nullable a)
  end.

(** The strings that, put behind [c], match [r]. *)
Fixpoint deriv (c : N) (r : t) : t :=
  match r with
  | Void => Void
  | Eps => Void
  | Chr cls => if cls c then Eps else Void
  | Seq a b =>
    Alt (Seq (deriv c a) b) (if nullable a then deriv c b else Void)
  | Alt a b => Alt (deriv c a) (deriv c b)
  | Star a => Seq (deriv c a) (Star a)
  | And a b => And (deriv c a) (deriv c b)
  | Not a => Not (deriv c a)
  end.

(** Whether the whole of [s] matches [r]. *)
Fixpoint matches (r : t) (s : list N) : bool :=
  match s with
  | [] => nullable r
  | c :: rest => matches (deriv c r) rest
  end.

(** The strings of a repetition. *)
Inductive star (L : list N -> Prop) : list N -> Prop :=
  | star_nil : star L []
  | star_app s1 s2 : L s1 -> star L s2 -> star L (s1 ++ s2).

(** The strings that match [r]. *)
Fixpoint lang (r : t) (s : list N) : Prop :=
  match r with
  | Void => False
  | Eps => s = []
  | Chr cls => exists c, s = [c] /\ cls c = true
  | Seq a b => exists s1 s2, s = s1 ++ s2 /\ lang a s1 /\ lang b s2
  | Alt a b => lang a s \/ lang b s
  | Star a => star (lang a) s
  | And a b => lang a s /\ lang b s
  | Not a => ~ lang a s
  end.

(** The notations of the patterns. *)
Definition chr (c : string) : t :=
  Chr (fun x => bool_decide ([x] = Str.lit c)).
Definition oneOf (c : string) : t :=
  Chr (fun x => bool_decide (x ∈ Str.lit c)).
Definition opt (r : t) : t := Alt Eps r.
Definition plus (r : t) : t := Seq r (Star r).
Fixpoint seqs (rs : list t) : t :=
  match rs with
  | [] => Eps
  | [r] => r
  | r :: rest => Seq r (seqs rest)
  end.
Fixpoint times (n : nat) (r : t) : t :=
  match n with
  | O => Eps
  | S O => r
  | S n' => Seq r (times n' r)
  end.
Definition any : t := Chr (fun _ => true).
Definition dot : t := Chr (fun c => negb (Str.isLineTerminator c)).

(** [(?!.*X)] at the start of a pattern anchored at both ends: the string
    has no prefix that matches [.*X]. *)
Definition notAhead (x : t) (r : t) : t :=
  And (Not (Seq (Seq (Star dot) x) (Star any))) r.

End Re.

(** The character classes of [validationPatterns]. *)
Module Cls.

(** [[a-zA-Z]]. *)
Definition alpha (c : N) : bool :=
  ((97 <=? c)%N && (c <=? 122)%N) || ((65 <=? c)%N && (c <=? 90)%N).

(** [[a-zA-Z0-9]]. *)
Definition alnum (c : N) : bool := alpha c || Str.isDigit c.

(** [[a-zA-ZÅÄÖåäö]]. *)
Definition letter (c : N) : bool :=
  alpha c || bool_decide (c ∈ [0xC5; 0xC4; 0xD6; 0xE5; 0xE4; 0xF6]%N).

(** A class that lists its characters, as [[\.\-]]. *)
Definition among (s : string) (c : N) : bool := bool_decide (c ∈ Str.lit s).

(** [[\s\-]]. *)
Definition spaceOrHyphen (c : N) : bool := Str.isWhiteSpace c || among "-" c.

End Cls.

(** [X{n,}]. *)
Definition atLeast (n : nat) (r : Re.t) : Re.t := Re.Seq (Re.times n r) (Re.Star r).

(** What the two name patterns have behind their lookaheads,
    [[a-zA-ZÅÄÖåäö]{2,}([S]?[a-zA-ZÅÄÖåäö]+)*], for the class [S] of the
    separators. *)
Definition nameBody (sep : N -> bool) : Re.t :=
  Re.Seq (atLeast 2 (Re.Chr Cls.letter))
         (Re.Star (Re.Seq (Re.opt (Re.Chr sep)) (Re.plus (Re.Chr Cls.letter)))).

(** The keys of [validationPatterns]. *)
Module Key.
Inductive t : Type :=
  firstName | lastName | address | zipcode | city | email | phone.
End Key.

(** [validationPatterns]: each pattern stands between [^] and [$], so a
    value passes when the whole of it matches. *)
Definition validationPatterns (patternKey : Key.t) : Re.t :=
  let digit := Re.Chr Str.isDigit in
  let space := Re.Chr Str.isWhiteSpace in
  let letter := Re.Chr Cls.letter in
  let alpha := Re.Chr Cls.alpha in
  let alnum := Re.Chr Cls.alnum in
  let gap := Re.opt (Re.Chr Cls.spaceOrHyphen) in
  match patternKey with
  | Key.firstName =>
    Re.notAhead (Re.times 2 (Re.chr "."))
      (Re.notAhead (Re.times 2 (Re.chr "-"))
         (nameBody (Cls.among ".-")))
  | Key.lastName =>
    Re.notAhead (Re.times 2 (Re.chr "."))
      (Re.notAhead (Re.times 2 (Re.chr "-"))
         (Re.notAhead (Re.times 2 (Re.chr "'"))
            (nameBody (Cls.among ".-'"))))
  | Key.address =>
    Re.seqs [Re.plus letter;
             Re.Star (Re.Seq (Re.Chr Cls.spaceOrHyphen) (Re.plus letter));
             Re.plus space; Re.plus digit; Re.opt alpha;
             Re.opt (Re.seqs [Re.Star space; Re.chr "-"; Re.Star space;
                              Re.plus digit; Re.opt alpha])]
  | Key.zipcode => Re.seqs [Re.times 3 digit; Re.opt space; Re.times 2 digit]
  | Key.city =>
    Re.Seq (Re.plus letter)
           (Re.Star (Re.Seq (Re.Chr Cls.spaceOrHyphen) (Re.plus letter)))
  | Key.email =>
    Re.seqs [Re.plus alnum;
             Re.Star (Re.Seq (Re.Chr (Cls.among "._+-")) (Re.plus alnum));
             Re.chr "@"; Re.plus alnum;
             Re.Star (Re.Seq (Re.Chr (Cls.among ".-")) (Re.plus alnum));
             Re.chr "."; atLeast 2 alpha]
  | Key.phone =>
    Re.seqs [Re.Alt (Re.seqs [Re.chr "+"; Re.chr "4"; Re.chr "6"]) (Re.chr "0");
             gap; Re.chr "7"; gap; Re.times 1 digit; gap; Re.times 3 digit;
             gap; Re.times 2 digit; gap; Re.times 2 digit]
  end.

(** [validateField(fieldElement, patternKey)], from [fieldElement.value]:
    the result is also what the [hidden] class of the error message is set
    to. *)
Definition validateField (value : Str.t) (patternKey : Key.t) : bool :=
  let isValid := Re.matches (validationPatterns patternKey) value in
  isValid.

(** The fields of the order form: the value of each input element, or
    [None] where [document.querySelector] found no element. *)
Module Form.
Record t : Type := mk {
  firstName : option Str.t;
  lastName : option Str.t;
  address : option Str.t;
  zipcode : option Str.t;
  city : option Str.t;
  email : option Str.t;
  phoneNumber : option Str.t
}.
End Form.

(** [element ? validateField(element, key) : true]. *)
Definition validateOrTrue (element : option Str.t) (patternKey : Key.t) : bool :=
  match element with
  | Some value => validateField value patternKey
  | None => true
  end.

Definition validateFirstNameField (form : Form.t) : bool :=
  validateOrTrue (Form.firstName form) Key.firstName.
Definition validateLastNameField (form : Form.t) : bool :=
  validateOrTrue (Form.lastName form) Key.lastName.
Definition validateAdressField (form : Form.t) : bool :=
  validateOrTrue (Form.address form) Key.address.
Definition validateZipcodeField (form : Form.t) : bool :=
  validateOrTrue (Form.zipcode form) Key.zipcode.
Definition validateCityField (form : Form.t) : bool :=
  validateOrTrue (Form.city form) Key.city.
Definition validateEmailField (form : Form.t) : bool :=
  validateOrTrue (Form.email form) Key.email.
Definition validatePhoneNumberField (form : Form.t) : bool :=
  validateOrTrue (Form.phoneNumber form) Key.phone.

(** The functions the module declares for the fields, by name. *)
Definition declaredValidators : list (string * (Form.t -> bool)) :=
  [("validateFirstNameField", validateFirstNameField);
   ("validateLastNameField", validateLastNameField);
   ("validateAdressField", validateAdressField);
   ("validateZipcodeField", validateZipcodeField);
   ("validateCityField", validateCityField);
   ("validateEmailField", validateEmailField);
   ("validatePhoneNumberField", validatePhoneNumberField)].

(** How a call ends: with a value, or with an exception. *)
Inductive Completion (A : Type) : Type :=
  | Returns (a : A)
  | Throws (error : string).
Arguments Returns {A} a.
Arguments Throws {A} error.

(** A call [name()]: a name that is not declared throws a
    [ReferenceError]. *)
Definition callValidator (name : string) (form : Form.t) : Completion bool :=
  match list_find (fun d => d.1 = name) declaredValidators with
  | Some (_, d) => Returns (d.2 form)
  | None => Throws "ReferenceError"
  end.

(** [const isValid = name(); if (!isValid) return;] in a function that has
    brought the button to the state [orderBtn]. *)
Definition validOrReturn (name : string) (form : Form.t) (orderBtn : option bool)
    (rest : option bool * Completion unit) : option bool * Completion unit :=
  match callValidator name form with
  | Throws error => (orderBtn, Throws error)
  | Returns false => (orderBtn, Returns tt)
  | Returns true => rest
  end.

(** [toggleOrderButtonActive()]: [orderBtn] is [None] when the page has no
    order button, and else whether the button has its [disabled]
    attribute; the result is the button afterwards, and how the call ends.
    The error messages that the validators show or hide are left out. *)
Definition toggleOrderButtonActive (form : Form.t) (orderBtn : option bool)
  : option bool * Completion unit :=
  match orderBtn with
  | None => (None, Returns tt)
  | Some _ =>
    let orderBtn := Some true in
    validOrReturn "validateFirstNameField" form orderBtn
      (validOrReturn "validateLastNameField" form orderBtn
         (validOrReturn "validateAdressField" form orderBtn
            (validOrReturn "validateZipcodeField" form orderBtn
               (validOrReturn "validateCityField" form orderBtn
                  (validOrReturn "validateEmailField" form orderBtn
                     (validOrReturn "validatephoneNumberField" form orderBtn
                        (Some false, Returns tt)))))))
  end.

(** ** Vocabulary of the form properties *)

(** The value [formatExpiryInput] writes back, from the digits of the
    field. *)
Definition expiryOf (value : Str.t) : Str.t :=
  if (2 <=? length value)%nat
  then take 2 value ++ Str.lit "/" ++ take 2 (drop 2 value)
  else value.

(** The value [formatPhoneNumberInput] writes back, from the digits of the
    field. *)
Definition phoneOf (value : Str.t) : Str.t :=
  if (0 <? length value)%nat
  then if (length value <=? 3)%nat then value
       else if (length value <=? 6)%nat
            then Str.lit "(" ++ take 3 value ++ Str.lit ") " ++ drop 3 value
            else Str.lit "(" ++ take 3 value ++ Str.lit ") " ++
                 take 3 (drop 3 value) ++ Str.lit "-" ++ take 4 (drop 6 value)
  else value.

(** A length that no string of a pattern falls short of. *)
Fixpoint minLen (r : Re.t) : nat :=
  match r with
  | Re.Void | Re.Eps | Re.Star _ | Re.Not _ => 0
  | Re.Chr _ => 1
  | Re.Seq a b => minLen a + minLen b
  | Re.Alt a b => minLen a `min` minLen b
  | Re.And a b => minLen a `max` minLen b
  end.

(** Patterns that visibly match nothing. *)
Fixpoint isVoid (r : Re.t) : bool :=
  match r with
  | Re.Void => true
  | Re.Seq a b | Re.And a b => isVoid a || isVoid b
  | Re.Alt a b => isVoid a && isVoid b
  | _ => false
  end.

(** A name in words: letters, where a separator may stand before a
    letter; [nameTail] is the part behind the first two letters. *)
Fixpoint nameTail (sep : N -> bool) (s : Str.t) : bool :=
  match s with
  | [] => true
  | c :: rest =>
    (Cls.letter c ||
     (sep c && match rest with d :: _ => Cls.letter d | [] => false end)) &&
    nameTail sep rest
  end.

Definition nameShape (sep : N -> bool) (s : Str.t) : bool :=
  match s with
  | a :: b :: rest => Cls.letter a && Cls.letter b && nameTail sep rest
  | _ => false
  end.

(** A zip code in words: five digits, with or without one white space
    behind the third. *)
Definition zipShape (s : Str.t) : bool :=
  match s with
  | [a; b; c; d; e] => forallb Str.isDigit [a; b; c; d; e]
  | [a; b; c; w; d; e] =>
    forallb Str.isDigit [a; b; c; d; e] && Str.isWhiteSpace w
  | _ => false
  end.

(** * Properties *)

(** ** JavaScript numbers *)

Lemma Qc_of_Z_0 : Qc_of_Z 0 = 0%Qc.
Proof. by apply Qc_is_canon. Qed.

Lemma Qc_of_Z_add a b : (Qc_of_Z a + Qc_of_Z b)%Qc = Qc_of_Z (a + b).
Proof.
  apply Qc_is_canon. simpl. rewrite Qred_correct.
  by rewrite inject_Z_plus.
Qed.

Lemma Qc_of_Z_sub a b : (Qc_of_Z a - Qc_of_Z b)%Qc = Qc_of_Z (a - b).
Proof.
  apply Qc_is_canon. simpl. rewrite !Qred_correct.
  unfold Qeq, inject_Z. simpl. lia.
Qed.

Lemma Qc_of_Z_le a b : (Qc_of_Z a ≤ Qc_of_Z b)%Qc <-> a <= b.
Proof. unfold Qcle. simpl. by rewrite <- Zle_Qle. Qed.

Lemma Qc_of_Z_lt a b : (Qc_of_Z a < Qc_of_Z b)%Qc <-> a < b.
Proof. unfold Qclt. simpl. by rewrite <- Zlt_Qlt. Qed.

Lemma le_Num x y : (Num x <=? Num y)%js = bool_decide (x ≤ y)%Qc.
Proof. reflexivity. Qed.

Lemma gt_Num x y : (Num x >? Num y)%js = bool_decide (y < x)%Qc.
Proof. reflexivity. Qed.

Lemma ge_Num x y : (Num x >=? Num y)%js = bool_decide (y ≤ x)%Qc.
Proof. reflexivity. Qed.

(** ** The weekend surcharge *)

(** The test of the code, case by case. *)
Lemma isWeekendSurcharge_cases d :
  let time := getHours d * 60 + getMinutes d in
  isWeekendSurcharge d = true <->
  (getDay d = 5 /\ 15 * 60 <= time) \/ getDay d = 6 \/
  ((getDay d = 0 \/ getDay d = 1) /\ time < 3 * 60).
Proof.
  unfold isWeekendSurcharge. cbv zeta.
  rewrite !orb_true_iff, !andb_true_iff, !orb_true_iff.
  rewrite !Z.eqb_eq, Z.geb_le, Z.ltb_lt. lia.
Qed.

Lemma priceAt_surcharged d basePrice :
  isWeekendSurcharge d = true -> priceAt d basePrice = (basePrice * dec 115 100)%js.
Proof. unfold priceAt. by intros ->. Qed.

Lemma priceAt_plain d basePrice :
  isWeekendSurcharge d = false -> priceAt d basePrice = basePrice.
Proof. unfold priceAt. by intros ->. Qed.

Lemma calculateProductPrice_run basePrice (c : Clock) n :
  calculateProductPrice basePrice c n = (priceAt (c n) basePrice, S n).
Proof. reflexivity. Qed.

(** The four boundary minutes of the rule. *)
Lemma surcharge_boundaries :
  isWeekendSurcharge (mkDate 5 14 59) = false /\
  isWeekendSurcharge (mkDate 5 15 0) = true /\
  isWeekendSurcharge (mkDate 1 2 59) = true /\
  isWeekendSurcharge (mkDate 1 3 0) = false.
Proof. by repeat split. Qed.

(** Where the code's test and the window differ: the code is never true
    outside the window, and inside it the code misses Sunday from 03:00. *)
Lemma isWeekendSurcharge_window d :
  validDate d ->
  isWeekendSurcharge d =
  inSurchargeWindow d &&
  negb ((getDay d =? 0) && (3 * 60 <=? getHours d * 60 + getMinutes d)).
Proof.
  intros (Hd & Hh & Hm).
  apply eq_true_iff_eq. rewrite isWeekendSurcharge_cases. cbv zeta.
  unfold inSurchargeWindow, minuteOfWeek.
  rewrite andb_true_iff, negb_true_iff, andb_false_iff, orb_true_iff.
  rewrite Z.leb_le, Z.ltb_lt, Z.eqb_neq, Z.leb_gt. lia.
Qed.

(** C2, the code against the window: the surcharge is to apply from
    Friday 15:00 to Monday 03:00.  Sunday 12:00 lies in that window, and
    [calculateProductPrice] returns the base price unchanged when the clock
    reads Sunday 12:00: the test of the code puts the limit of 03:00 on
    Sunday as well as on Monday. *)
Theorem sunday_noon_not_surcharged :
  let sundayNoon := mkDate 0 12 0 in
  validDate sundayNoon /\
  inSurchargeWindow sundayNoon = true /\
  isWeekendSurcharge sundayNoon = false /\
  forall n, calculateProductPrice (int 100) (fun _ => sundayNoon) n = (int 100, S n).
Proof.
  cbv zeta. split; [unfold validDate; simpl; lia|].
  by repeat split.
Qed.

(** ** The cart store *)

Section heap_facts.
Implicit Types (s : Store) (p : Product.t) (r : nat) (i : Z).

Lemma catalogFields_setAmount v p :
  Product.catalogFields (Product.setAmount v p) = Product.catalogFields p.
Proof. reflexivity. Qed.

(** Writing [amount] on one object leaves the catalogue part of the
    heap as it was. *)
Lemma catalogFields_alter (f : Product.t -> jsnum) r (h : list Product.t) :
  Product.catalogFields <$> alter (fun p => Product.setAmount (f p) p) r h =
  Product.catalogFields <$> h.
Proof.
  rewrite (list_fmap_alter _ _ (fun x => x)).
  - by apply list_alter_id.
  - by apply Forall_forall.
Qed.

Lemma step_catalogFields s op :
  Product.catalogFields <$> heap (step s op) = Product.catalogFields <$> heap s.
Proof.
  destruct op as [i v|r|r| |]; simpl; try done.
  - unfold addProductToCart.
    destruct (findProduct i s); [|done].
    destruct (v <=? int 0)%js; [done|].
    destruct (findIndex i s) as [k|]; simpl.
    + destruct (cart s !! k); [|done]. simpl.
      apply (catalogFields_alter (fun p => (toNumber (Product.amount p) + v)%js)).
    + apply (catalogFields_alter (fun _ => v)).
  - unfold increaseProductFromCart. destruct (cartAt r s); [|done]. simpl.
    apply (catalogFields_alter (fun p => (toNumber (Product.amount p) + int 1)%js)).
  - unfold decreaseProductFromCart. destruct (cartAt r s) as [k|]; [|done].
    destruct (heap s !! k) as [p|]; [|done].
    destruct (toNumber (Product.amount p) >? int 0)%js; [|done]. simpl.
    apply (catalogFields_alter (fun p => (toNumber (Product.amount p) - int 1)%js)).
Qed.

Lemma run_catalogFields ops s :
  Product.catalogFields <$> heap (run ops s) = Product.catalogFields <$> heap s.
Proof.
  revert s. induction ops as [|op ops IH]; intros s; [done|].
  unfold run in *. simpl. rewrite IH. apply step_catalogFields.
Qed.

Lemma ids_catalogFields (h : list Product.t) :
  Product.id <$> h = (fun x => x.1.1.1.1) <$> (Product.catalogFields <$> h).
Proof. by rewrite <- list_fmap_compose. Qed.

Lemma step_ids s op : Product.id <$> heap (step s op) = Product.id <$> heap s.
Proof. by rewrite !ids_catalogFields, step_catalogFields. Qed.

Lemma run_ids ops s : Product.id <$> heap (run ops s) = Product.id <$> heap s.
Proof. by rewrite !ids_catalogFields, run_catalogFields. Qed.

(** [products.find] only looks at the ids. *)
Lemma findProduct_ids i s :
  findProduct i s = fst <$> list_find (fun j => j = i) (Product.id <$> heap s).
Proof.
  unfold findProduct. rewrite list_find_fmap.
  by destruct (list_find _ (heap s)) as [[??]|].
Qed.

Lemma findProduct_step i s op : findProduct i (step s op) = findProduct i s.
Proof. by rewrite !findProduct_ids, step_ids. Qed.

Lemma findProduct_Some i s r :
  findProduct i s = Some r ->
  exists p, heap s !! r = Some p /\ Product.id p = i.
Proof.
  unfold findProduct. intros [[r' p] [Hf ?]]%fmap_Some. simpl in *. subst r'.
  apply list_find_Some in Hf as (? & ? & _). eauto.
Qed.

Lemma findProduct_None i s :
  findProduct i s = None <-> i ∉ Product.id <$> heap s.
Proof.
  unfold findProduct. rewrite fmap_None, list_find_None, Forall_forall.
  rewrite list_elem_of_fmap. split.
  - intros H [p [-> Hp]]. by apply (H p).
  - intros H p Hp Heq. apply H. eauto.
Qed.
End heap_facts.

(** ** The catalogue under cart operations *)

(** C5 as stated does not hold: buying one Rice Cookie leaves the first
    object of the catalogue with a property [amount] it did not have when
    the page was loaded. *)
Lemma catalog_record_mutated :
  ~ (forall ops, heap (run ops (startup products)) = products).
Proof.
  intros H. specialize (H [Add 11 (int 1)]).
  apply (f_equal (fun h => Product.amount <$> h !! 0%nat)) in H.
  vm_compute in H. discriminate H.
Qed.

(** C5, amended: whatever the catalogue and the cart operations (session
    timeout included), every object of the catalogue keeps its id, name,
    price, category and image, and no object is added or removed; only the
    property [amount] is written. *)
Theorem catalog_fields_preserved (catalog : list Product.t) (ops : list CartOp) :
  Product.catalogFields <$> heap (run ops (startup catalog)) =
  Product.catalogFields <$> catalog.
Proof. apply run_catalogFields. Qed.

(** ** [addProductToCart] that does nothing *)

(** C9 as stated does not hold: the quantity 1.5 is not an integer, the
    product 11 is in the catalogue, and the cart gets a line. *)
Lemma fractional_quantity_is_added :
  ~ (forall i v s,
       ~ (isInteger v /\ (v >? int 0)%js = true) \/ i ∉ Product.id <$> heap s ->
       addProductToCart i v s = s).
Proof.
  intros H. specialize (H 11 (dec 3 2) (startup products)).
  apply (f_equal cart) in H.
  - vm_compute in H. discriminate H.
  - left. intros [[z Hz] _]. unfold dec, int in Hz.
    apply (f_equal (fun v => match v with Num q => Qden q | NaN => 1%positive end)) in Hz.
    vm_compute in Hz. discriminate Hz.
Qed.

(** C9, amended: [addProductToCart] returns the store it was given when
    the quantity compares [<= 0], or when no product of the catalogue has
    the id. *)
Theorem addProductToCart_noop (s : Store) (i : Z) (v : jsnum) :
  (v <=? int 0)%js = true \/ i ∉ Product.id <$> heap s ->
  addProductToCart i v s = s.
Proof.
  intros H. unfold addProductToCart.
  destruct (findProduct i s) as [r|] eqn:Hfind; [|done].
  destruct H as [-> | H]; [done|].
  apply findProduct_None in H. congruence.
Qed.

Lemma addProductToCart_noop_witness :
  addProductToCart 11 (int 0) (startup products) = startup products /\
  addProductToCart 11 (int (-2)) (startup products) = startup products /\
  addProductToCart 99 (int 3) (startup products) = startup products.
Proof.
  split_and!; apply addProductToCart_noop.
  - left. reflexivity.
  - left. reflexivity.
  - right. simpl. rewrite !elem_of_cons, elem_of_nil. lia.
Defined.

(** ** Quantities of the cart lines *)

Lemma add_int a b : (int a + int b)%js = int (a + b).
Proof. unfold int. simpl. by rewrite Qc_of_Z_add. Qed.

Lemma sub_int a b : (int a - int b)%js = int (a - b).
Proof. unfold int. simpl. by rewrite Qc_of_Z_sub. Qed.

Lemma le_int a b : (int a <=? int b)%js = bool_decide (a <= b).
Proof. unfold int. simpl. apply bool_decide_ext, Qc_of_Z_le. Qed.

Lemma gt_int a b : (int a >? int b)%js = bool_decide (b < a).
Proof. unfold int. simpl. apply bool_decide_ext, Qc_of_Z_lt. Qed.

(** An invariant of the handlers is an invariant of every run. *)
Lemma run_invariant (P : Store -> Prop) (Q : CartOp -> Prop) :
  (forall s op, Q op -> P s -> P (step s op)) ->
  forall ops s, Forall Q ops -> P s -> P (run ops s).
Proof.
  intros Hstep ops. induction ops as [|op ops IH]; intros s Hops Hs; [done|].
  apply Forall_cons in Hops as [Hop Hops].
  apply (IH (step s op)); auto.
Qed.

Lemma lines_elem_of s line :
  line ∈ lines s <-> exists r, r ∈ cart s /\ heap s !! r = Some line.
Proof. unfold lines. apply list_elem_of_omap. Qed.

Lemma splice1_sublist {A} start (l : list A) : splice1 start l `sublist_of` l.
Proof. unfold splice1. apply sublist_delete. Qed.

Section amounts.
Implicit Types (s : Store) (r : nat).

Lemma amountInv_alter s (f : Z -> Z) (g : Product.t -> jsnum) k :
  (forall p z, heap s !! k = Some p -> Product.amount p = Some (int z) -> 0 <= z ->
               g p = int (f z) /\ 0 <= f z) ->
  amountInv s ->
  amountInv (mkStore (alter (fun p => Product.setAmount (g p) p) k (heap s)) (cart s)).
Proof.
  intros Hg Hinv r Hr. simpl in *.
  destruct (Hinv r Hr) as (p & z & Hp & Ha & Hz).
  rewrite list_lookup_alter. case_decide as Hk; [subst k|by eauto].
  rewrite Hp. simpl. destruct (Hg p z Hp Ha Hz) as [Hgp Hfz].
  exists (Product.setAmount (g p) p), (f z). simpl. by rewrite Hgp.
Qed.

Lemma amountInv_step s op : integralOp op -> amountInv s -> amountInv (step s op).
Proof.
  intros Hop Hinv. destruct op as [i v|k|k|k|]; simpl.
  - destruct Hop as [z ->]. unfold addProductToCart.
    destruct (findProduct i s) as [r|] eqn:Hfind; [|done].
    rewrite le_int. case_bool_decide as Hz; [done|].
    destruct (findIndex i s) as [index|].
    + destruct (cart s !! index) as [line|]; [|done].
      apply (amountInv_alter s (fun z0 => z0 + z)); [|done].
      intros p z0 _ -> ?. cbn [toNumber]. rewrite add_int. split; [done|lia].
    + intros r' Hr'. simpl in *. rewrite list_lookup_alter.
      apply elem_of_app in Hr' as [Hr'|Hr'].
      * destruct (Hinv r' Hr') as (p & z0 & Hp & Ha & Hz0).
        case_decide as Hk; [subst r'|by eauto].
        rewrite Hp. simpl. exists (Product.setAmount (int z) p), z.
        split_and!; [done..|lia].
      * apply list_elem_of_singleton in Hr' as ->.
        rewrite decide_True by done.
        apply findProduct_Some in Hfind as (p & -> & _). simpl.
        exists (Product.setAmount (int z) p), z. split_and!; [done..|lia].
  - unfold increaseProductFromCart. destruct (cartAt k s) as [r|]; [|done].
    apply (amountInv_alter s (fun z0 => z0 + 1)); [|done].
    intros p z0 _ -> ?. cbn [toNumber]. rewrite add_int. split; [done|lia].
  - unfold decreaseProductFromCart. destruct (cartAt k s) as [r|]; [|done].
    destruct (heap s !! r) as [p|] eqn:Hp; [|done].
    destruct (toNumber (Product.amount p) >? int 0)%js eqn:Hgt; [|done].
    apply (amountInv_alter s (fun z0 => if decide (0 < z0) then z0 - 1 else z0));
      [|done].
    intros p' z0 Hp' Ha ?. assert (p' = p) as -> by congruence.
    rewrite Ha in Hgt. cbn [toNumber] in Hgt. rewrite Ha. cbn [toNumber].
    rewrite gt_int in Hgt. apply bool_decide_eq_true in Hgt.
    rewrite decide_True by done. rewrite sub_int. split; [done|lia].
  - intros r Hr. simpl in *. apply Hinv.
    eapply elem_of_sublist; [done|apply splice1_sublist].
  - intros r Hr. simpl in *. by apply elem_of_nil in Hr.
Qed.

Lemma amountInv_startup catalog : amountInv (startup catalog).
Proof. intros r Hr. simpl in *. by apply elem_of_nil in Hr. Qed.
End amounts.

(** ** One cart line per product *)

Section cart_shape.
Implicit Types (s : Store) (r k : nat) (i : Z).

(** The ids of the cart lines depend on the ids of the heap only. *)
Lemma cartIds_alt s :
  cartIds s = omap (fun r => (Product.id <$> heap s) !! r) (cart s).
Proof.
  unfold cartIds, lines. rewrite list_fmap_omap.
  apply list_omap_ext, Forall2_same_length_lookup. split; [done|].
  intros j r r' ? ?. assert (r = r') as -> by congruence.
  by rewrite list_lookup_fmap.
Qed.

Lemma findIndex_None i s : findIndex i s = None <-> i ∉ cartIds s.
Proof.
  unfold findIndex. rewrite fmap_None, list_find_None, Forall_forall.
  rewrite cartIds_alt, list_elem_of_omap. setoid_rewrite list_lookup_fmap.
  split.
  - intros H (r & Hr & Hid). by apply (H r).
  - intros H r Hr Hid. apply H. eauto.
Qed.

Lemma findIndex_Some i s k :
  findIndex i s = Some k ->
  exists r p, cart s !! k = Some r /\ heap s !! r = Some p /\ Product.id p = i.
Proof.
  unfold findIndex. intros [[k' r] [Hf ?]]%fmap_Some. simpl in *. subst k'.
  apply list_find_Some in Hf as (Hk & Hid & _).
  apply fmap_Some in Hid as (p & ? & ?). eauto.
Qed.

(** What a handler does to the array [cart]: it keeps some of the
    entries in their order, or it pushes the object found for a new id. *)
Lemma step_cart s op :
  cart (step s op) `sublist_of` cart s \/
  exists i v r, op = Add i v /\ findProduct i s = Some r /\
    findIndex i s = None /\ (v <=? int 0)%js = false /\
    cart (step s op) = cart s ++ [r].
Proof.
  destruct op as [i v|k|k|k|]; simpl.
  - unfold addProductToCart.
    destruct (findProduct i s) as [r|] eqn:Hfind; [|by left].
    destruct (v <=? int 0)%js eqn:Hv; [by left|].
    destruct (findIndex i s) as [index|] eqn:Hidx.
    + destruct (cart s !! index); by left.
    + right. by exists i, v, r.
  - left. unfold increaseProductFromCart. by destruct (cartAt k s).
  - left. unfold decreaseProductFromCart.
    destruct (cartAt k s) as [r|]; [|done].
    destruct (heap s !! r) as [p|]; [|done].
    by destruct (toNumber (Product.amount p) >? int 0)%js.
  - left. apply splice1_sublist.
  - left. apply sublist_nil_l.
Qed.

(** An entry that refers to the object found for its id still does so
    after a handler has run. *)
Lemma entry_step s op r p :
  heap s !! r = Some p -> findProduct (Product.id p) s = Some r ->
  exists p', heap (step s op) !! r = Some p' /\
    findProduct (Product.id p') (step s op) = Some r.
Proof.
  intros Hp Hfind.
  assert ((Product.id <$> heap (step s op)) !! r = Some (Product.id p)) as Hid.
  { by rewrite step_ids, list_lookup_fmap, Hp. }
  rewrite list_lookup_fmap in Hid. apply fmap_Some in Hid as (p' & Hp' & Hid).
  exists p'. split; [done|]. by rewrite findProduct_step, <- Hid.
Qed.

Lemma cartInv_step s op : cartInv s -> cartInv (step s op).
Proof.
  intros [Hnd Hval].
  destruct (step_cart s op) as [Hsub|(i & v & r & -> & Hfind & Hidx & _ & Hcart)].
  - split; [by eapply sublist_NoDup|].
    intros r Hr. destruct (Hval r) as (p & Hp & Hfind).
    { by eapply elem_of_sublist. }
    by eapply entry_step.
  - destruct (findProduct_Some _ _ _ Hfind) as (p & Hp & Hid).
    assert (r ∉ cart s) as Hnew.
    { intros Hr. apply findIndex_None in Hidx. apply Hidx.
      rewrite cartIds_alt, list_elem_of_omap. exists r. split; [done|].
      by rewrite list_lookup_fmap, Hp, <- Hid. }
    unfold cartInv. rewrite Hcart. split.
    + apply NoDup_app. split_and!; [done| |apply NoDup_singleton].
      intros r' Hr' ->%list_elem_of_singleton. done.
    + intros r' [Hr'| ->%list_elem_of_singleton]%elem_of_app.
      * destruct (Hval r' Hr') as (p' & Hp' & Hfind'). by eapply entry_step.
      * eapply entry_step; [done|]. by rewrite Hid.
Qed.

Lemma cartInv_startup catalog : cartInv (startup catalog).
Proof.
  split; [apply NoDup_nil_2|]. intros r Hr. simpl in *. by apply elem_of_nil in Hr.
Qed.

Lemma cartInv_run catalog ops : cartInv (run ops (startup catalog)).
Proof.
  apply (run_invariant cartInv (fun _ => True)); [by auto using cartInv_step| |].
  - by apply Forall_forall.
  - apply cartInv_startup.
Qed.

(** No two cart lines have the same id. *)
Lemma cartIds_NoDup s : cartInv s -> NoDup (cartIds s).
Proof.
  intros [Hnd Hval]. rewrite cartIds_alt.
  induction Hnd as [|r l Hr Hnd IH]; [apply NoDup_nil_2|].
  destruct (Hval r) as (p & Hp & Hfind); [by left|].
  csimpl. rewrite list_lookup_fmap, Hp. simpl. apply NoDup_cons. split.
  - intros (r' & Hr' & Hid)%list_elem_of_omap.
    rewrite list_lookup_fmap in Hid. apply fmap_Some in Hid as (p' & Hp' & Hid).
    destruct (Hval r') as (p'' & Hp'' & Hfind'); [by right|].
    assert (p'' = p') as -> by congruence.
    rewrite <- Hid, Hfind in Hfind'. congruence.
  - apply IH. intros r' Hr'. apply Hval. by right.
Qed.
End cart_shape.

(** ** Quantities that can be seen in the cart *)

(** C6 as stated does not hold.  With one of each of the twelve products
    in the cart, the - button of the Rice Cookie line (its [data-id] is the
    product id 11) makes [decreaseProductFromCart] take 1 off the line at
    position 11, which stays in the cart with quantity 0.  Every call of
    the trace is one the page can make. *)
Lemma zero_quantity_line :
  ~ (forall ops line,
       uiTrace (startup products) ops = true ->
       line ∈ lines (run ops (startup products)) ->
       exists q, Product.amount line = Some (Num q) /\ (1 ≤ q)%Qc).
Proof.
  intros H. pose (ops := buyOneOfEach ++ [Decrease 11]).
  destruct (lines (run ops (startup products)) !! 11%nat) as [line|] eqn:E;
    [|vm_compute in E; discriminate E].
  destruct (H ops line) as (q & Hq & Hle).
  - by vm_compute.
  - by eapply list_elem_of_lookup_2.
  - vm_compute in E. injection E as <-. simpl in Hq. injection Hq as <-.
    revert Hle. by apply Qclt_not_le.
Qed.

(** C6, amended: when the quantities passed to [addProductToCart] are
    integers, every line of the cart holds an integer quantity that is
    at least 0, after any sequence of adds, increments, decrements,
    removals and session timeouts, whatever their arguments. *)
Theorem quantities_never_negative (catalog : list Product.t)
    (ops : list CartOp) (line : Product.t) :
  Forall integralOp ops ->
  line ∈ lines (run ops (startup catalog)) ->
  exists z, Product.amount line = Some (int z) /\ 0 <= z.
Proof.
  intros Hops (r & Hr & Hline)%lines_elem_of.
  assert (amountInv (run ops (startup catalog))) as Hinv.
  { apply (run_invariant amountInv integralOp);
      auto using amountInv_step, amountInv_startup. }
  destruct (Hinv r Hr) as (p & z & Hp & Ha & Hz).
  exists z. split; [congruence|done].
Qed.

Lemma quantities_never_negative_witness :
  exists z, Product.amount (Product.setAmount (int 3) riceCookie) = Some (int z) /\
            0 <= z.
Proof.
  apply (quantities_never_negative products [Add 11 (int 3); Delete 5]).
  - repeat constructor. by exists 3.
  - change (Product.setAmount (int 3) riceCookie ∈ [Product.setAmount (int 3) riceCookie]).
    apply list_elem_of_here.
Defined.

(** ** Adding to the cart *)

Section adding.
Implicit Types (s : Store) (r k : nat) (i : Z) (v : jsnum).

Lemma omap_lookup_total {A B} (f : A -> option B) (l : list A) j :
  (forall x, x ∈ l -> is_Some (f x)) -> omap f l !! j = l !! j ≫= f.
Proof.
  revert j. induction l as [|x l IH]; intros j Hl; [done|].
  destruct (Hl x) as [y Hy]; [by left|]. csimpl. rewrite Hy.
  destruct j as [|j]; simpl; [done|]. apply IH. intros x' Hx'. apply Hl. by right.
Qed.

Lemma lines_lookup s j :
  cartInv s -> lines s !! j = cart s !! j ≫= (fun r => heap s !! r).
Proof.
  intros [_ Hval]. apply omap_lookup_total.
  intros r Hr. destruct (Hval r Hr) as (p & -> & _). by eexists.
Qed.

(** Writing on the object of line [k] changes line [k] and no other. *)
Lemma lines_alter s (f : Product.t -> Product.t) k line :
  cartInv s -> cart s !! k = Some line ->
  lines (mkStore (alter f line (heap s)) (cart s)) = alter f k (lines s).
Proof.
  intros Hinv Hk. pose proof Hinv as [Hnd Hval].
  apply list_eq. intros j. unfold lines at 1. simpl.
  rewrite omap_lookup_total.
  - rewrite (list_lookup_alter f (lines s)), !lines_lookup by done.
    destruct (decide (k = j)) as [<-|Hkj].
    + rewrite Hk. simpl. by rewrite list_lookup_alter_eq.
    + destruct (cart s !! j) as [r|] eqn:Hj; simpl; [|done].
      apply list_lookup_alter_ne. intros ->. apply Hkj.
      by eapply NoDup_lookup.
  - intros r Hr. destruct (Hval r Hr) as (p & Hp & _).
    rewrite list_lookup_alter. case_decide; [subst; rewrite Hp|]; by eexists.
Qed.

(** Pushing an object that is not in the cart adds a line at the end. *)
Lemma lines_push s (f : Product.t -> Product.t) r p :
  r ∉ cart s -> heap s !! r = Some p ->
  lines (mkStore (alter f r (heap s)) (cart s ++ [r])) = lines s ++ [f p].
Proof.
  intros Hr Hp. unfold lines. simpl. rewrite omap_app. f_equal.
  - apply list_omap_ext, Forall2_same_length_lookup. split; [done|].
    intros j r1 r2 Hj ?. assert (r1 = r2) as -> by congruence.
    apply list_lookup_alter_ne. intros ->. apply Hr.
    by eapply list_elem_of_lookup_2.
  - csimpl. by rewrite list_lookup_alter_eq, Hp.
Qed.

Lemma add_cart s i v :
  cart (addProductToCart i v s) =
  match findProduct i s with
  | Some r =>
    if (v <=? int 0)%js then cart s
    else match findIndex i s with
         | Some _ => cart s
         | None => cart s ++ [r]
         end
  | None => cart s
  end.
Proof.
  unfold addProductToCart. destruct (findProduct i s); [|done].
  destruct (v <=? int 0)%js; [done|].
  destruct (findIndex i s) as [k|]; [|done]. by destruct (cart s !! k).
Qed.

Lemma accepted_iff s i v :
  accepted (heap s) (i, v) <->
  is_Some (findProduct i s) /\ (v <=? int 0)%js = false.
Proof.
  unfold accepted. simpl. rewrite <- not_eq_None_Some, findProduct_None.
  split; intros [H ?]; (split; [|done]); [tauto|].
  by destruct (decide (i ∈ Product.id <$> heap s)).
Qed.

(** The ids of the cart after an add. *)
Lemma add_cartIds s i v :
  cartIds (addProductToCart i v s) =
  if decide (accepted (heap s) (i, v) /\ i ∉ cartIds s)
  then cartIds s ++ [i] else cartIds s.
Proof.
  pose proof (step_ids s (Add i v)) as Hids. simpl in Hids.
  rewrite (cartIds_alt (addProductToCart i v s)), Hids, add_cart.
  destruct (findProduct i s) as [r|] eqn:Hfind.
  - destruct (v <=? int 0)%js eqn:Hv.
    { rewrite <- cartIds_alt, decide_False; [done|].
      intros [[_ ?]%accepted_iff _]. congruence. }
    destruct (findIndex i s) as [k|] eqn:Hidx.
    + rewrite <- cartIds_alt, decide_False; [done|].
      intros [_ Hin%findIndex_None]. congruence.
    + rewrite decide_True.
      * rewrite omap_app, <- cartIds_alt. f_equal. csimpl.
        apply findProduct_Some in Hfind as (p & Hp & <-).
        by rewrite list_lookup_fmap, Hp.
      * split; [|by apply findIndex_None].
        apply accepted_iff. split; [by eexists|done].
  - rewrite <- cartIds_alt, decide_False; [done|].
    intros [[[r Hr] _]%accepted_iff _]. congruence.
Qed.

(** The cart after a sequence of adds: the ids in the order in which
    they were first added. *)
Lemma adds_cartIds catalog (adds : list (Z * jsnum)) s :
  Product.id <$> heap s = Product.id <$> catalog ->
  cartIds (run (uncurry Add <$> adds) s) =
  cartIds s ++
  filter (fun x => x ∉ cartIds s)
         (firstOccurrences ((fun a => a.1) <$> filter (accepted catalog) adds)).
Proof.
  revert s. induction adds as [|[i v] adds IH]; intros s Hids.
  { simpl. by rewrite app_nil_r. }
  assert (accepted (heap s) (i, v) <-> accepted catalog (i, v)) as Hacc.
  { unfold accepted. by rewrite Hids. }
  change (run (uncurry Add <$> (i, v) :: adds) s)
    with (run (uncurry Add <$> adds) (step s (Add i v))).
  rewrite IH by (by rewrite step_ids). simpl. rewrite add_cartIds.
  rewrite filter_cons. destruct (decide (accepted catalog (i, v))) as [Ha|Ha].
  - simpl. rewrite filter_cons, list_filter_filter.
    destruct (decide (i ∉ cartIds s)) as [Hi|Hi].
    + rewrite decide_True by tauto. rewrite <- app_assoc. simpl. do 2 f_equal.
      apply list_filter_iff. intros x.
      rewrite not_elem_of_app, list_elem_of_singleton. tauto.
    + rewrite decide_False by tauto. f_equal.
      apply list_filter_iff. intros x. split; [|tauto].
      intros Hx. split; [done|]. intros ->. tauto.
  - rewrite decide_False by tauto. done.
Qed.
End adding.

Section merging.
Implicit Types (s : Store) (r k : nat) (i : Z) (v : jsnum).

Lemma filter_not_in_nil (l : list Z) : filter (fun x => x ∉ @nil Z) l = l.
Proof.
  induction l as [|x l IH]; [done|].
  rewrite filter_cons_True by apply not_elem_of_nil. by rewrite IH.
Qed.

Lemma add_existing_line s i v :
  cartInv s -> accepted (heap s) (i, v) -> i ∈ cartIds s ->
  exists k, cartIds s !! k = Some i /\
    lines (addProductToCart i v s) =
    alter (fun p => Product.setAmount (toNumber (Product.amount p) + v)%js p)
          k (lines s).
Proof.
  intros Hinv [[r Hfind] Hv]%accepted_iff Hin.
  destruct (findIndex i s) as [k|] eqn:Hidx;
    [|by apply findIndex_None in Hidx].
  destruct (findIndex_Some _ _ _ Hidx) as (line & p & Hk & Hp & Hid).
  exists k. split.
  - unfold cartIds. rewrite list_lookup_fmap, lines_lookup by done.
    rewrite Hk. simpl. rewrite Hp. simpl. by rewrite Hid.
  - unfold addProductToCart. rewrite Hfind, Hv, Hidx, Hk.
    by apply lines_alter.
Qed.

Lemma add_new_line s i v :
  cartInv s -> accepted (heap s) (i, v) -> i ∉ cartIds s ->
  exists p, p ∈ heap s /\ Product.id p = i /\
    lines (addProductToCart i v s) = lines s ++ [Product.setAmount v p].
Proof.
  intros Hinv [[r Hfind] Hv]%accepted_iff Hin.
  destruct (findProduct_Some _ _ _ Hfind) as (p & Hp & Hid).
  exists p. split_and!; [by eapply list_elem_of_lookup_2|done|].
  pose proof Hin as Hidx%findIndex_None.
  unfold addProductToCart. rewrite Hfind, Hv, Hidx.
  apply lines_push; [|done].
  intros Hr. apply Hin. rewrite cartIds_alt, list_elem_of_omap.
  exists r. split; [done|]. by rewrite list_lookup_fmap, Hp, <- Hid.
Qed.

(** Three and then two of a product of the catalogue, in an empty cart. *)
Lemma add_three_then_two catalog i :
  i ∈ Product.id <$> catalog ->
  exists p, p ∈ catalog /\ Product.id p = i /\
    lines (run [Add i (int 3); Add i (int 2)] (startup catalog)) =
    [Product.setAmount (int 5) p].
Proof.
  intros Hi. pose (s := startup catalog).
  destruct (add_new_line s i (int 3)) as (p & Hp & Hid & Hlines).
  { apply cartInv_startup. }
  { by split. }
  { apply not_elem_of_nil. }
  exists p. split_and!; [done..|].
  change (run _ _) with (addProductToCart i (int 2) (step s (Add i (int 3)))).
  assert (cartIds (step s (Add i (int 3))) = [i]) as Hids.
  { unfold cartIds. simpl. by rewrite Hlines; simpl; rewrite Hid. }
  destruct (add_existing_line (step s (Add i (int 3))) i (int 2))
    as (k & Hk & ->).
  { apply cartInv_step, cartInv_startup. }
  { unfold accepted. rewrite (step_ids s (Add i (int 3))). by split. }
  { rewrite Hids. by left. }
  rewrite Hids in Hk. destruct k as [|k]; [|by destruct k].
  simpl. rewrite Hlines.
  change (_ = _) with
    ([Product.setAmount (toNumber (Some (int 3)) + int 2)%js
        (Product.setAmount (int 3) p)] = [Product.setAmount (int 5) p]).
  cbn [toNumber]. by rewrite add_int.
Qed.

(** What a write of the quantity does to the quantities and to the
    catalogue properties of the lines. *)
Lemma amounts_alter (f : Product.t -> jsnum) (ls : list Product.t) k line :
  ls !! k = Some line ->
  Product.amount <$> alter (fun p => Product.setAmount (f p) p) k ls =
  <[k := Some (f line)]> (Product.amount <$> ls).
Proof.
  intros Hk. apply list_eq. intros j.
  rewrite list_lookup_fmap, list_lookup_alter, list_lookup_insert.
  rewrite length_fmap, list_lookup_fmap.
  pose proof (lookup_lt_Some _ _ _ Hk) as Hlt.
  destruct (decide (k = j)) as [<-|Hne].
  - rewrite Hk. simpl. by rewrite decide_True.
  - rewrite decide_False; [done|]. tauto.
Qed.

Lemma catalogFields_lines_alter (f : Product.t -> jsnum) (ls : list Product.t) k :
  Product.catalogFields <$> alter (fun p => Product.setAmount (f p) p) k ls =
  Product.catalogFields <$> ls.
Proof.
  apply list_eq. intros j. rewrite !list_lookup_fmap, list_lookup_alter.
  case_decide as Hkj; [subst j|done]. by destruct (ls !! k).
Qed.
End merging.

(** C8: [addProductToCart] merges by product.  In any cart that the
    handlers can produce, an accepted add of a product that has a line
    makes the quantity of that line its old quantity plus the quantity
    added and changes no other quantity and nothing else of a line, and an
    accepted add of a product that has no line appends one line for the
    product, with the quantity added as its quantity, at the end; the ids
    of the lines stay pairwise distinct.  Three and then two of one
    product, from the empty cart, give a single line with quantity 5.
    After any sequence of adds from the empty cart the lines are in the
    order in which their products were first added. *)
Theorem addProductToCart_merges (catalog : list Product.t) (ops : list CartOp)
    (adds : list (Z * jsnum)) (i : Z) (v : jsnum) :
  let s := run ops (startup catalog) in
  let s' := addProductToCart i v s in
  accepted catalog (i, v) ->
  (i ∈ cartIds s ->
   exists k line, lines s !! k = Some line /\ Product.id line = i /\
     Product.amount <$> lines s' =
       <[k := Some (toNumber (Product.amount line) + v)%js]>
         (Product.amount <$> lines s) /\
     Product.catalogFields <$> lines s' = Product.catalogFields <$> lines s) /\
  (i ∉ cartIds s ->
   exists line, lines s' = lines s ++ [line] /\
     Product.id line = i /\ Product.amount line = Some v /\
     exists p, p ∈ heap s /\
       Product.catalogFields line = Product.catalogFields p) /\
  NoDup (cartIds s') /\
  (exists line,
     lines (run [Add i (int 3); Add i (int 2)] (startup catalog)) = [line] /\
     Product.id line = i /\ Product.amount line = Some (int 5)) /\
  NoDup (cartIds (run (uncurry Add <$> adds) (startup catalog))) /\
  cartIds (run (uncurry Add <$> adds) (startup catalog)) =
  firstOccurrences ((fun a => a.1) <$> filter (accepted catalog) adds).
Proof.
  intros s s' Hacc.
  assert (cartInv s) as Hinv by apply cartInv_run.
  assert (accepted (heap s) (i, v)) as Hacc'.
  { unfold accepted, s. by rewrite run_ids. }
  split_and!.
  - intros Hin.
    destruct (add_existing_line s i v Hinv Hacc' Hin) as (k & Hk & Hlines).
    unfold cartIds in Hk. rewrite list_lookup_fmap in Hk.
    apply fmap_Some in Hk as (line & Hline & Hid).
    exists k, line. fold s' in Hlines. rewrite Hlines.
    split_and!; [done|done| |].
    + by apply (amounts_alter
                  (fun p => (toNumber (Product.amount p) + v)%js)).
    + apply (catalogFields_lines_alter
               (fun p => (toNumber (Product.amount p) + v)%js)).
  - intros Hout.
    destruct (add_new_line s i v Hinv Hacc' Hout) as (p & Hp & Hid & Hlines).
    exists (Product.setAmount v p). fold s' in Hlines.
    split_and!; [done|done|done|]. by exists p.
  - apply cartIds_NoDup. by apply (cartInv_step s (Add i v)).
  - destruct (add_three_then_two catalog i) as (p & _ & Hid & Hlines);
      [apply Hacc|].
    exists (Product.setAmount (int 5) p). by split_and!.
  - apply cartIds_NoDup, cartInv_run.
  - rewrite (adds_cartIds catalog) by done. apply filter_not_in_nil.
Qed.

Lemma addProductToCart_merges_witness :
  let adds := [(12, int 1); (11, int 3); (12, int 2); (99, int 4); (11, int 0)] in
  accepted products (11, int 2) /\
  (exists line,
     lines (run [Add 11 (int 3); Add 11 (int 2)] (startup products)) = [line] /\
     Product.amount line = Some (int 5)) /\
  cartIds (run (uncurry Add <$> adds) (startup products)) =
  firstOccurrences ((fun a => a.1) <$> filter (accepted products) adds).
Proof.
  intros adds.
  assert (accepted products (11, int 2)) as Hacc.
  { split; [apply list_elem_of_here|reflexivity]. }
  destruct (addProductToCart_merges products [Add 11 (int 3)] adds 11 (int 2) Hacc)
    as (_ & _ & _ & (line & Hlines & _ & Hamount) & _ & Hids).
  split; [exact Hacc|]. split; [|exact Hids].
  exists line. split; [exact Hlines|exact Hamount].
Defined.

(** ** The totals *)

Section totals.
Implicit Types (s : Store) (c : Clock) (n : nat) (ls : list Product.t).

Lemma unitPrices_lookup count c n ls k :
  unitPrices count c n ls !! k = unitPrice count (c (n + k)%nat) <$> ls !! k.
Proof.
  revert n k. induction ls as [|line ls IH]; intros n k; [done|].
  destruct k as [|k]; simpl.
  - by rewrite Nat.add_0_r.
  - rewrite IH. by rewrite Nat.add_succ_r.
Qed.

Lemma priceLoop_cons count line ls tot b ps c n :
  priceLoop count (line :: ls) (tot, b, ps) c n =
  priceLoop count ls
    ((tot + unitPrice count (c n) line * toNumber (Product.amount line))%js,
     bulkApplies count line || b,
     ps ++ [unitPrice count (c n) line]) c (S n).
Proof.
  unfold unitPrice, bulkApplies, applyBulkDiscount.
  change (priceLoop count (line :: ls) (tot, b, ps) c n) with
    (priceLoop count ls
       ((tot + Bulk.price (applyBulkDiscount
                 (toNumber (count !! Product.category line))
                 (priceAt (c n) (Product.price line))) *
               toNumber (Product.amount line))%js,
        (if Bulk.discountApplied (applyBulkDiscount
                 (toNumber (count !! Product.category line))
                 (priceAt (c n) (Product.price line)))
         then true else b),
        ps ++ [Bulk.price (applyBulkDiscount
                 (toNumber (count !! Product.category line))
                 (priceAt (c n) (Product.price line)))]) c (S n)).
  unfold applyBulkDiscount.
  by destruct (toNumber (count !! Product.category line) >=? BULK_THRESHOLD)%js.
Qed.

(** The loop reads the clock once per line. *)
Lemma priceLoop_run count ls tot b ps c n :
  priceLoop count ls (tot, b, ps) c n =
  ((subtotals tot (unitPrices count c n ls) ls,
    b || existsb (bulkApplies count) ls,
    ps ++ unitPrices count c n ls),
   (n + length ls)%nat).
Proof.
  revert tot b ps n. induction ls as [|line ls IH]; intros tot b ps n.
  { simpl. by rewrite orb_false_r, app_nil_r, Nat.add_0_r. }
  rewrite priceLoop_cons, IH. simpl.
  rewrite <- app_assoc, Nat.add_succ_r. simpl.
  do 3 f_equal. destruct (bulkApplies count line), b; done.
Qed.

(** One run of [updateCartTotals]: the clock is read once per line, in
    cart order, and once more for the Monday discount. *)
Lemma updateCartTotals_run s c n :
  let ls := lines s in
  let count := countCategories ls in
  let prices := unitPrices count c n ls in
  let date := c (n + length ls)%nat in
  let total := subtotals (int 0) prices ls in
  let discount :=
    if (getDay date =? MONDAY) && (getHours date <? 10)
    then (total * dec 1 10)%js else int 0 in
  let items :=
    foldl (fun sum product => (sum + toNumber (Product.amount product))%js)
          (int 0) ls in
  let shipping :=
    if (items >? int 15)%js then int 0
    else if (items >? int 0)%js
         then (int 25 + dec 1 10 * (total - discount))%js
         else int 0 in
  updateCartTotals s c n =
  (mkTotals count prices total (existsb (bulkApplies count) ls) discount
     (total - discount)%js items shipping (total - discount + shipping)%js
     (toFixed2 (total - discount + shipping)%js +:+ " kr"),
   S (n + length ls)).
Proof.
  cbv zeta. unfold updateCartTotals, mbind, Eff_bind.
  rewrite priceLoop_run. reflexivity.
Qed.
End totals.

(** ** Quantities per category and in total *)

Section quantities.
Implicit Types (ls : list Product.t) (cat : string) (p : Product.t).

Lemma sumQ_app (l1 l2 : list Qc) : sumQ (l1 ++ l2) = (sumQ l1 + sumQ l2)%Qc.
Proof.
  induction l1 as [|q l1 IH]; simpl.
  - by rewrite Qcplus_0_l.
  - rewrite IH. apply Qcplus_assoc.
Qed.

Lemma hasQuantity_quantity p :
  hasQuantity p -> Product.amount p = Some (Num (quantity p)).
Proof. intros [q Hq]. unfold quantity. by rewrite Hq. Qed.

Lemma categoryQuantity_snoc cat ls p :
  categoryQuantity cat (ls ++ [p]) =
  (categoryQuantity cat ls +
   (if decide (Product.category p = cat) then quantity p else 0))%Qc.
Proof.
  unfold categoryQuantity. rewrite filter_app, fmap_app, sumQ_app. f_equal.
  rewrite filter_cons, filter_nil. case_decide; simpl; [|done].
  apply Qcplus_0_r.
Qed.

Lemma categoryQuantity_absent cat ls :
  cat ∉ Product.category <$> ls -> categoryQuantity cat ls = 0%Qc.
Proof.
  intros Hcat. unfold categoryQuantity.
  induction ls as [|p ls IH]; [done|].
  apply not_elem_of_cons in Hcat as [Hp Hls].
  rewrite filter_cons_False by (intros ?; by apply Hp). by apply IH.
Qed.

(** The object [categoryCount] holds, for each category of the cart,
    the sum of the quantities of the lines of that category, and has no
    other key; a category named like a property of [Object.prototype]
    has no number. *)
Lemma countCategories_lookup ls cat :
  Forall hasQuantity ls ->
  countCategories ls !! cat =
  if decide (cat ∈ Product.category <$> ls)
  then Some (if bool_decide (cat ∈ objectPrototypeNames) then NaN
             else Num (categoryQuantity cat ls))
  else None.
Proof.
  induction ls as [|p ls IH] using rev_ind; intros Hq.
  { rewrite decide_False by apply not_elem_of_nil. apply lookup_empty. }
  apply Forall_app in Hq as [Hls Hp]. rewrite Forall_singleton in Hp.
  specialize (IH Hls). unfold countCategories in *. rewrite foldl_snoc.
  rewrite categoryQuantity_snoc, fmap_app, (hasQuantity_quantity p Hp).
  destruct (decide (Product.category p = cat)) as [<-|Hne].
  - rewrite lookup_insert_eq, decide_True
      by (apply elem_of_app; right; apply list_elem_of_here).
    f_equal. case_bool_decide as Hproto; [done|].
    rewrite IH. case_decide as Hin; simpl.
    + case_decide as H0; [|done]. unfold int. by rewrite H0, Qc_of_Z_0.
    + rewrite categoryQuantity_absent by done. unfold int. by rewrite Qc_of_Z_0.
  - rewrite lookup_insert_ne by done. rewrite IH, Qcplus_0_r.
    apply decide_ext. rewrite elem_of_app. simpl.
    rewrite list_elem_of_singleton. intuition congruence.
Qed.

Lemma countCategories_line ls p :
  Forall hasQuantity ls -> p ∈ ls ->
  toNumber (countCategories ls !! Product.category p) =
  if bool_decide (Product.category p ∈ objectPrototypeNames) then NaN
  else Num (categoryQuantity (Product.category p) ls).
Proof.
  intros Hq Hp. rewrite countCategories_lookup by done.
  rewrite decide_True; [done|]. by apply list_elem_of_fmap_2.
Qed.

(** A category named like a property of [Object.prototype] never gets
    the bulk discount. *)
Lemma bulkApplies_inherited ls line :
  Forall hasQuantity ls -> line ∈ ls ->
  Product.category line ∈ objectPrototypeNames ->
  bulkApplies (countCategories ls) line = false.
Proof.
  intros Hq Hin Hproto. unfold bulkApplies.
  rewrite countCategories_line by done.
  by rewrite bool_decide_eq_true_2.
Qed.

(** [cart.reduce((sum, product) => sum + product.amount, 0)]. *)
Lemma itemCount_sum ls a :
  Forall hasQuantity ls ->
  foldl (fun sum p => (sum + toNumber (Product.amount p))%js) (Num a) ls =
  Num (a + totalItemCount ls)%Qc.
Proof.
  revert a. induction ls as [|p ls IH]; intros a Hq; simpl.
  { by rewrite Qcplus_0_r. }
  apply Forall_cons in Hq as [Hp Hls].
  rewrite (hasQuantity_quantity p Hp). simpl. rewrite IH by done.
  unfold totalItemCount. simpl. by rewrite Qcplus_assoc.
Qed.
End quantities.

(** ** The pricing rules in the totals *)

Ltac totals_fields :=
  cbv zeta; rewrite updateCartTotals_run;
  cbn [fst snd categoryCount finalPrices cartTotal bulkDiscountApplied
       discountAmount totalAfterDiscount itemCount shippingCost finalTotal
       cartTotalHTML].

Lemma unitPrice_aggregate ls line now :
  Forall hasQuantity ls -> line ∈ ls ->
  Product.category line ∉ objectPrototypeNames ->
  unitPrice (countCategories ls) now line =
  if decide (Qc_of_Z 10 ≤ categoryQuantity (Product.category line) ls)%Qc
  then (priceAt now (Product.price line) * dec 9 10)%js
  else priceAt now (Product.price line).
Proof.
  intros Hq Hin Hplain. unfold unitPrice, applyBulkDiscount.
  rewrite countCategories_line, bool_decide_eq_false_2 by done.
  unfold BULK_THRESHOLD, int.
  rewrite ge_Num. by case_bool_decide; [rewrite decide_True|rewrite decide_False].
Qed.

Lemma bulkApplies_aggregate ls line :
  Forall hasQuantity ls -> line ∈ ls ->
  Product.category line ∉ objectPrototypeNames ->
  bulkApplies (countCategories ls) line =
  bool_decide (Qc_of_Z 10 ≤ categoryQuantity (Product.category line) ls)%Qc.
Proof.
  intros Hq Hin Hplain. unfold bulkApplies.
  by rewrite countCategories_line, bool_decide_eq_false_2 by done.
Qed.







(** ** The totals and the clock *)

Lemma unitPrices_ext count (c1 c2 : Clock) n1 n2 ls :
  (forall k, (k < length ls)%nat -> c1 (n1 + k)%nat = c2 (n2 + k)%nat) ->
  unitPrices count c1 n1 ls = unitPrices count c2 n2 ls.
Proof.
  intros Hc. apply list_eq. intros k. rewrite !unitPrices_lookup.
  destruct (ls !! k) as [line|] eqn:Hk; [|done]. simpl.
  rewrite Hc; [done|]. by eapply lookup_lt_Some.
Qed.

(** Two runs whose clock reads agree, read by read, compute the same. *)
Lemma updateCartTotals_ext s (c1 c2 : Clock) n1 n2 :
  (forall k, (k <= length (lines s))%nat -> c1 (n1 + k)%nat = c2 (n2 + k)%nat) ->
  (updateCartTotals s c1 n1).1 = (updateCartTotals s c2 n2).1.
Proof.
  intros Hc. rewrite !updateCartTotals_run. cbn [fst].
  rewrite (unitPrices_ext _ c1 c2 n1 n2) by (intros k ?; apply Hc; lia).
  by rewrite (Hc (length (lines s))) by lia.
Qed.

(** C10 as stated does not hold: the result is not a function of the
    store and of the time at which the computation starts.  With one Rice
    Cookie in the cart and both runs starting at Monday 09:59, the run
    whose clock has moved to 10:00 when the Monday rule reads it gives no
    discount, and the run whose clock still reads 09:59 gives one. *)
Lemma totals_read_the_clock :
  ~ (forall s (c1 c2 : Clock) n1 n2,
       c1 n1 = c2 n2 ->
       (updateCartTotals s c1 n1).1 = (updateCartTotals s c2 n2).1).
Proof.
  intros H.
  specialize (H (run [Add 11 (int 1)] (startup products))
                (fun _ => mkDate 1 9 59)
                (clockTurning (mkDate 1 9 59) (mkDate 1 10 0)) 0%nat 0%nat eq_refl).
  apply (f_equal cartTotalHTML) in H. vm_compute in H. discriminate H.
Qed.

(** C10, amended: [updateCartTotals] reads the clock once for each cart
    line and once more for the Monday rule, [length cart + 1] reads in
    all, and its result is a function of the store and of the values of
    those reads.  Two runs on the same store in which every one of those
    reads returns the same time value [now] give the same totals, those
    of a clock that stands still at [now]. *)
Theorem totals_determined_by_clock_reads (s : Store) (c1 c2 : Clock)
    (n1 n2 : nat) (now : Date) :
  (forall k, (k <= length (lines s))%nat ->
     c1 (n1 + k)%nat = now /\ c2 (n2 + k)%nat = now) ->
  (updateCartTotals s c1 n1).1 = (updateCartTotals s c2 n2).1 /\
  (updateCartTotals s c1 n1).1 = (updateCartTotals s (fun _ => now) 0%nat).1 /\
  (updateCartTotals s c1 n1).2 = (n1 + (length (lines s) + 1))%nat.
Proof.
  intros Hc. split_and!.
  - apply updateCartTotals_ext. intros k Hk.
    destruct (Hc k Hk) as [-> ->]. done.
  - apply updateCartTotals_ext. intros k Hk. by destruct (Hc k Hk) as [-> _].
  - rewrite updateCartTotals_run. cbn [snd]. lia.
Qed.

Lemma totals_determined_by_clock_reads_witness :
  let s := run [Add 11 (int 1); Add 21 (int 2)] (startup products) in
  let now := mkDate 1 9 59 in
  (updateCartTotals s (clockTurning now now) 0%nat).1 =
  (updateCartTotals s (fun k => if decide (k <= 7)%nat then now else mkDate 1 10 0) 5%nat).1.
Proof.
  intros s now.
  refine (proj1 (totals_determined_by_clock_reads s _ _ 0%nat 5%nat now _)).
  intros k Hk. change (length (lines s)) with 2%nat in Hk. split.
  - by destruct k.
  - rewrite decide_True; [done|lia].
Defined.

(** ** The total on the page and the invoice limit *)

Section display.
Implicit Types (s : string) (c : ascii) (n v : Z).

Lemma spanDigits_uint u s :
  (forall c r, s = String c r -> isDigit c = false) ->
  spanDigits (NilEmpty.string_of_uint u +:+ s) = (NilEmpty.string_of_uint u, s).
Proof.
  intros Hs. induction u; simpl; rewrite ?IHu; try done.
  destruct s as [|c r]; [done|]. simpl. by rewrite (Hs c r).
Qed.

Lemma digits_nonempty n : exists c r, digits n = String c r /\ isDigit c = true.
Proof.
  unfold digits. destruct (N.to_uint (Z.to_N n)) eqn:E;
    [|simpl; eexists _, _; split; reflexivity..].
  destruct (Z.to_N n); [discriminate E|]. simpl in E.
  by apply DecimalPos.Unsigned.to_uint_nonnil in E.
Qed.

Lemma digitsValue_digits n : 0 <= n -> digitsValue (digits n) = n.
Proof.
  intros Hn. unfold digitsValue, digits.
  rewrite NilEmpty.usu, DecimalN.Unsigned.of_to. lia.
Qed.

Lemma digitChar_isDigit v : 0 <= v <= 9 -> isDigit (digitChar v) = true.
Proof.
  intros Hv. assert (exists k, v = Z.of_nat k /\ (k <= 9)%nat) as (k & -> & Hk).
  { exists (Z.to_nat v). lia. }
  unfold digitChar. rewrite Nat2Z.id.
  do 10 (destruct k as [|k]; [reflexivity|]). lia.
Qed.

Lemma digitsValue_pair v1 v2 :
  0 <= v1 <= 9 -> 0 <= v2 <= 9 ->
  digitsValue (String (digitChar v1) (String (digitChar v2) EmptyString)) =
  10 * v1 + v2.
Proof.
  intros H1 H2.
  assert (exists k, v1 = Z.of_nat k /\ (k <= 9)%nat) as (k1 & -> & Hk1).
  { exists (Z.to_nat v1). lia. }
  assert (exists k, v2 = Z.of_nat k /\ (k <= 9)%nat) as (k2 & -> & Hk2).
  { exists (Z.to_nat v2). lia. }
  unfold digitChar. rewrite !Nat2Z.id.
  do 10 (destruct k1 as [|k1]; [do 10 (destruct k2 as [|k2]; [reflexivity|]); lia|]).
  lia.
Qed.

Lemma spanDigits_digit c r :
  isDigit c = true ->
  spanDigits (String c r) = (String c (spanDigits r).1, (spanDigits r).2).
Proof.
  intros Hc.
  change (spanDigits (String c r)) with
    (if isDigit c
     then let '(ds, rest) := spanDigits r in (String c ds, rest)
     else (EmptyString, String c r)).
  rewrite Hc. by destruct (spanDigits r).
Qed.

Lemma spanDigits_stop s :
  (forall c r, s = String c r -> isDigit c = false) ->
  spanDigits s = (EmptyString, s).
Proof.
  intros Hs. destruct s as [|c r]; [done|].
  change (spanDigits (String c r)) with
    (if isDigit c
     then let '(ds, rest) := spanDigits r in (String c ds, rest)
     else (EmptyString, String c r)).
  by rewrite (Hs c r).
Qed.

Lemma spanDigits_pair v1 v2 s :
  0 <= v1 <= 9 -> 0 <= v2 <= 9 ->
  (forall c r, s = String c r -> isDigit c = false) ->
  spanDigits (String (digitChar v1) (String (digitChar v2) s)) =
  (String (digitChar v1) (String (digitChar v2) EmptyString), s).
Proof.
  intros H1 H2 Hs.
  rewrite !spanDigits_digit by by apply digitChar_isDigit.
  by rewrite spanDigits_stop.
Qed.

Lemma Qc_of_Z_mul a b : (Qc_of_Z a * Qc_of_Z b)%Qc = Qc_of_Z (a * b).
Proof.
  apply Qc_is_canon. simpl. rewrite Qred_correct. by rewrite inject_Z_mult.
Qed.


Lemma parseFloat_digit c r :
  isDigit c = true -> parseFloat (String c r) = parseUnsigned (String c r).
Proof.
  intros Hc. unfold parseFloat.
  assert (isSpace c = false /\ c <> "-"%char /\ c <> "+"%char) as (Hs & Hm & Hp).
  { destruct c as [[] [] [] [] [] [] [] []]; try discriminate Hc; by split_and!. }
  change (skipSpaces (String c r)) with
    (if isSpace c then skipSpaces r else String c r).
  rewrite Hs.
  destruct c as [[] [] [] [] [] [] [] []]; try done.
Qed.

Lemma parseUnsigned_point whole r :
  whole <> EmptyString ->
  forall s, spanDigits s = (whole, String "." r) ->
  parseUnsigned s =
  Num (Qc_of_Z (digitsValue whole) +
       Qc_of_Z (digitsValue (spanDigits r).1) /
       Qc_of_Z (10 ^ Z.of_nat (String.length (spanDigits r).1)))%Qc.
Proof.
  intros Hw s Hs. unfold parseUnsigned. rewrite Hs.
  rewrite decide_False; [done|]. by intros [? _].
Qed.

Lemma Qfloor_nonneg (x : Qc) :
  (0 ≤ x)%Qc -> 0 <= Qfloor (x * Q2Qc 100 + Q2Qc (1 # 2))%Qc.
Proof.
  intros Hx. change 0 with (Qfloor 0). apply Qfloor_resp_le.
  unfold Qcle in Hx. simpl in *. rewrite !Qred_correct.
  change (Qred 0) with 0%Q in Hx. lra.
Qed.

Lemma hundredths n :
  0 <= n ->
  (Qc_of_Z (n / 100) + Qc_of_Z (10 * (n mod 100 / 10) + n mod 10) / Qc_of_Z 100)%Qc =
  (Qc_of_Z n / Qc_of_Z 100)%Qc.
Proof.
  intros Hn.
  assert (10 * (n mod 100 / 10) + n mod 10 = n mod 100) as ->
    by (Z.to_euclidean_division_equations; lia).
  rewrite (Z.div_mod n 100) at 3 by lia.
  rewrite <- Qc_of_Z_add, <- Qc_of_Z_mul. field.
  intros H. apply (f_equal this) in H. discriminate H.
Qed.

Lemma append_assoc (a b c : string) : (a +:+ b) +:+ c = a +:+ b +:+ c.
Proof.
  induction a as [|ch a IH]; [done|].
  change (String ch ((a +:+ b) +:+ c) = String ch (a +:+ b +:+ c)).
  by rewrite IH.
Qed.

Lemma parseUnsigned_fixed2 (x : Qc) :
  (0 ≤ x)%Qc ->
  parseUnsigned (fixed2 x +:+ " kr") =
  Num (Qc_of_Z (Qfloor (x * Q2Qc 100 + Q2Qc (1 # 2))%Qc) / Qc_of_Z 100)%Qc /\
  parseFloat (fixed2 x +:+ " kr") = parseUnsigned (fixed2 x +:+ " kr").
Proof.
  intros Hx. pose proof (Qfloor_nonneg x Hx) as Hn. unfold fixed2.
  set (n := Qfloor (x * Q2Qc 100 + Q2Qc (1 # 2))%Qc) in *.
  set (d1 := n mod 100 / 10). set (d2 := n mod 10).
  assert (0 <= d1 <= 9 /\ 0 <= d2 <= 9) as [Hd1 Hd2]
    by (subst d1 d2; Z.to_euclidean_division_equations; lia).
  rewrite append_assoc.
  change ("." +:+ String (digitChar d1) (String (digitChar d2) "") +:+ " kr")
    with (String "." (String (digitChar d1) (String (digitChar d2) " kr"))).
  split.
  - rewrite (parseUnsigned_point (digits (n / 100))
               (String (digitChar d1) (String (digitChar d2) " kr"))).
    + rewrite spanDigits_pair; [|done|done|by intros c0 r0 [= <- _]]. cbn [fst].
      rewrite digitsValue_digits by (apply Z.div_pos; lia).
      rewrite digitsValue_pair by done.
      change (10 ^ Z.of_nat (String.length _)) with 100.
      f_equal. subst d1 d2. by apply hundredths.
    + destruct (digits_nonempty (n / 100)) as (ch & r & -> & _). done.
    + unfold digits. apply spanDigits_uint. by intros c0 r0 [= <- _].
  - destruct (digits_nonempty (n / 100)) as (ch & r & -> & Hch).
    change (String ch r +:+ ?s) with (String ch (r +:+ s)).
    by apply parseFloat_digit.
Qed.

Lemma Qc_of_Z_opp a : (- Qc_of_Z a)%Qc = Qc_of_Z (- a).
Proof.
  apply Qc_is_canon. simpl. rewrite Qred_correct.
  unfold Qeq, inject_Z. simpl. lia.
Qed.

(** The text of [toFixed(2)], read back by [parseFloat], is the number
    rounded to hundredths. *)
Lemma parseFloat_toFixed2 (x : Qc) :
  parseFloat (toFixed2 (Num x) +:+ " kr") =
  Num (Qc_of_Z (roundedCents x) / Qc_of_Z 100)%Qc.
Proof.
  unfold toFixed2, roundedCents. destruct (decide (x < 0)%Qc) as [Hneg|Hpos].
  - assert (0 ≤ - x)%Qc as Hx.
    { apply Qclt_le_weak, Qcopp_le_compat in Hneg. exact Hneg. }
    change (parseFloat (("-" +:+ fixed2 (- x)) +:+ " kr"))
      with (negate (parseUnsigned (fixed2 (- x) +:+ " kr"))).
    destruct (parseUnsigned_fixed2 (- x)%Qc Hx) as [-> _]. simpl.
    rewrite <- Qc_of_Z_opp. f_equal. field.
    intros H. apply (f_equal this) in H. discriminate H.
  - apply Qcnot_lt_le in Hpos.
    destruct (parseUnsigned_fixed2 x Hpos) as [Hu ->]. exact Hu.
Qed.

Lemma invoice_allowed_cents n :
  isInvoicePaymentAllowed (Num (Qc_of_Z n / Qc_of_Z 100)%Qc) =
  bool_decide (n <= 80000).
Proof.
  unfold isInvoicePaymentAllowed, INVOICE_LIMIT, int. rewrite le_Num.
  apply bool_decide_ext. unfold Qcle. simpl. rewrite !Qred_correct.
  unfold Qle, Qmult, Qinv, inject_Z. simpl. lia.
Qed.
End display.

(** C7: the invoice option is gated by [totalAmount <= 800], where
    [totalAmount] is read back from the text of [#cartTotal], the grand
    total rounded to two decimals: with the rounded total counted in
    hundredths, the invoice choice is accepted exactly when that count is
    at most 80000.  A total shown as 800.00 is eligible and a total shown
    as 800.01 is not, whatever cart and clock produced the text. *)
Theorem invoice_eligibility (s : Store) (c : Clock) (n : nat) :
  let t := (updateCartTotals s c n).1 in
  let choice := handlePaymentMethodToggle "invoice" (cartTotalHTML t) in
  cartTotalHTML t = toFixed2 (finalTotal t) +:+ " kr" /\
  (forall total : Qc, finalTotal t = Num total ->
     parseFloat (cartTotalHTML t) =
       Num (Qc_of_Z (roundedCents total) / Qc_of_Z 100)%Qc /\
     choice = if decide (roundedCents total <= 80000)
              then InvoiceSection else InvoiceRefused) /\
  (cartTotalHTML t = "800.00 kr" -> choice = InvoiceSection) /\
  (cartTotalHTML t = "800.01 kr" -> choice = InvoiceRefused) /\
  (forall totalAmount : Qc,
     isInvoicePaymentAllowed (Num totalAmount) =
     bool_decide (totalAmount ≤ Qc_of_Z 800)%Qc).
Proof.
  intros t choice.
  assert (cartTotalHTML t = toFixed2 (finalTotal t) +:+ " kr") as Htext.
  { subst t. by totals_fields. }
  split_and!; [done| | | |by intros ?].
  - intros total Htotal. rewrite Htotal in Htext.
    assert (parseFloat (cartTotalHTML t) =
            Num (Qc_of_Z (roundedCents total) / Qc_of_Z 100)%Qc) as Hparse.
    { rewrite Htext. apply parseFloat_toFixed2. }
    split; [done|]. subst choice. unfold handlePaymentMethodToggle.
    rewrite Hparse, invoice_allowed_cents.
    rewrite bool_decide_eq_true_2 by done.
    by case_bool_decide; [rewrite decide_True|rewrite decide_False].
  - intros Hshown. subst choice. by rewrite Hshown.
  - intros Hshown. subst choice. by rewrite Hshown.
Qed.

Lemma invoice_eligibility_witness :
  let atLimit := run [Add 11 (int 11); Add 12 (int 9); Add 31 (int 4)]
                     (startup products) in
  let overLimit := run [Add 11 (int 2); Add 12 (int 17); Add 31 (int 3)]
                       (startup products) in
  let shown s date := cartTotalHTML (updateCartTotals s (fun _ => date) 0%nat).1 in
  (shown atLimit (mkDate 3 12 0) = "800.00 kr" /\
   handlePaymentMethodToggle "invoice" (shown atLimit (mkDate 3 12 0)) =
   InvoiceSection) /\
  (shown overLimit (mkDate 1 9 0) = "800.01 kr" /\
   handlePaymentMethodToggle "invoice" (shown overLimit (mkDate 1 9 0)) =
   InvoiceRefused).
Proof.
  intros atLimit overLimit shown.
  assert (shown atLimit (mkDate 3 12 0) = "800.00 kr") as Hat by by vm_compute.
  assert (shown overLimit (mkDate 1 9 0) = "800.01 kr") as Hover by by vm_compute.
  split; (split; [done|]).
  - by apply (invoice_eligibility atLimit (fun _ => mkDate 3 12 0) 0%nat).
  - by apply (invoice_eligibility overLimit (fun _ => mkDate 1 9 0) 0%nat).
Defined.

(** ** Reachable carts hold numbers *)

(** The hypothesis of the rules above, that every cart line holds a
    number, is met by every cart that the handlers produce from the page
    as loaded when the quantities passed to [addProductToCart] are
    integers. *)
Lemma reachable_hasQuantity (catalog : list Product.t) (ops : list CartOp) :
  Forall integralOp ops -> Forall hasQuantity (lines (run ops (startup catalog))).
Proof.
  intros Hops. apply Forall_forall. intros line (r & Hr & Hline)%lines_elem_of.
  assert (amountInv (run ops (startup catalog))) as Hinv.
  { apply (run_invariant amountInv integralOp);
      auto using amountInv_step, amountInv_startup. }
  destruct (Hinv r Hr) as (p & z & Hp & Ha & _).
  exists (Qc_of_Z z). assert (line = p) as -> by congruence. exact Ha.
Qed.

(** The calls that the page can make pass integers to
    [addProductToCart]. *)
Lemma uiTrace_integral (ops : list CartOp) (s : Store) :
  uiTrace s ops = true -> Forall integralOp ops.
Proof.
  revert s. induction ops as [|op ops IH]; intros s Hui; [constructor|].
  simpl in Hui. apply andb_true_iff in Hui as [Hop Hops].
  constructor; [|by eapply IH].
  destruct op as [i v| | | |]; try done. simpl in *.
  apply andb_true_iff in Hop as [_ Hv]. destruct v as [q|]; [|done].
  apply andb_true_iff in Hv as [Hq _]. apply bool_decide_eq_true in Hq.
  by exists (Qfloor q).
Qed.

(** ** The scenarios of the specification *)

(** Ten Rice Cookies on a Wednesday at noon: unit price 26.10, cart total
    261.00, freight 51.10, grand total 312.10. *)
Example ten_rice_cookies :
  let t := (updateCartTotals (run [Add 11 (int 10)] (startup products))
              (fun _ => mkDate 3 12 0) 0%nat).1 in
  toFixed2 <$> finalPrices t = ["26.10"] /\
  toFixed2 (cartTotal t) = "261.00" /\
  toFixed2 (discountAmount t) = "0.00" /\
  toFixed2 (shippingCost t) = "51.10" /\
  cartTotalHTML t = "312.10 kr".
Proof. by vm_compute. Qed.

(** The empty cart: grand total 0.00, no freight, invoice allowed. *)
Example empty_cart (now : Date) :
  let t := (updateCartTotals (startup products) (fun _ => now) 0%nat).1 in
  shippingCost t = int 0 /\ cartTotalHTML t = "0.00 kr" /\
  handlePaymentMethodToggle "invoice" (cartTotalHTML t) = InvoiceSection.
Proof.
  cbv zeta. rewrite updateCartTotals_run.
  cbn [fst shippingCost cartTotalHTML lines startup cart omap list_omap].
  by destruct ((getDay _ =? MONDAY) && (getHours _ <? 10)).
Qed.

(** * Further properties of the cart *)

(** ** Removing a line *)

Lemma omap_delete_total {A B} (f : A -> option B) (l : list A) k :
  (forall x, x ∈ l -> is_Some (f x)) ->
  omap f (delete k l) = delete k (omap f l).
Proof.
  revert k. induction l as [|x l IH]; intros k Hl; [done|].
  destruct (Hl x) as [y Hy]; [by left|].
  assert (forall x', x' ∈ l -> is_Some (f x')) as Hl'.
  { intros x' Hx'. apply Hl. by right. }
  destruct k as [|k]; csimpl; rewrite Hy; csimpl; [done|].
  by rewrite IH.
Qed.

Lemma lines_length s : cartInv s -> length (lines s) = length (cart s).
Proof.
  intros [_ Hval]. unfold lines.
  assert (forall r, r ∈ cart s -> is_Some (heap s !! r)) as Hsome.
  { intros r Hr. destruct (Hval r Hr) as (p & -> & _). by eexists. }
  clear Hval. induction (cart s) as [|r l IH]; [done|].
  destruct (Hsome r) as [p Hp]; [by left|]. csimpl. rewrite Hp. simpl.
  f_equal. apply IH. intros r' Hr'. apply Hsome. by right.
Qed.

Lemma delete_past_end {A} (l : list A) i : (length l <= i)%nat -> delete i l = l.
Proof.
  intros Hi. rewrite delete_take_drop, take_ge, drop_ge by lia.
  apply app_nil_r.
Qed.

Lemma store_eta s : mkStore (heap s) (cart s) = s.
Proof. by destruct s. Qed.

Lemma splice1_in_range {A} (l : list A) rowId :
  0 <= rowId -> splice1 rowId l = delete (Z.to_nat rowId) l.
Proof.
  intros Hk. unfold splice1. destruct (Z.ltb_spec rowId 0) as [|_]; [lia|].
  destruct (Z.min_spec rowId (Z.of_nat (length l))) as [[_ ->]|[Hge ->]]; [done|].
  rewrite Nat2Z.id. by rewrite !delete_past_end by lia.
Qed.

Lemma handleDelete_lines s rowId :
  cartInv s -> 0 <= rowId ->
  lines (handleDeleteCartItem rowId s) = delete (Z.to_nat rowId) (lines s).
Proof.
  intros [_ Hval] Hk. unfold handleDeleteCartItem, lines. simpl.
  rewrite splice1_in_range by done.
  apply omap_delete_total. intros r Hr.
  destruct (Hval r Hr) as (p & -> & _). by eexists.
Qed.

(** X1: the delete button of the line at position [rowId] removes that
    line and leaves every other line, with its quantity, in its place;
    with [rowId] at or past the end of the cart nothing changes.  The
    objects of the catalogue are not touched. *)
Theorem handleDeleteCartItem_removes_line (catalog : list Product.t)
    (ops : list CartOp) (rowId : Z) :
  let s := run ops (startup catalog) in
  0 <= rowId ->
  lines (handleDeleteCartItem rowId s) = delete (Z.to_nat rowId) (lines s) /\
  heap (handleDeleteCartItem rowId s) = heap s /\
  (Z.of_nat (length (lines s)) <= rowId -> handleDeleteCartItem rowId s = s).
Proof.
  intros s Hk. assert (cartInv s) as Hinv by apply cartInv_run.
  split_and!; [by apply handleDelete_lines|done|].
  intros Hge. rewrite lines_length in Hge by done.
  unfold handleDeleteCartItem.
  rewrite splice1_in_range, delete_past_end by lia.
  apply store_eta.
Qed.

Lemma handleDeleteCartItem_removes_line_witness :
  let s := run [Add 11 (int 2); Add 21 (int 1); Add 31 (int 4)] (startup products) in
  lines (handleDeleteCartItem 1 s) = delete 1%nat (lines s) /\
  handleDeleteCartItem 3 s = s.
Proof.
  assert (0 <= 1) as H1 by lia. assert (0 <= 3) as H3 by lia.
  intros s.
  destruct (handleDeleteCartItem_removes_line products
              [Add 11 (int 2); Add 21 (int 1); Add 31 (int 4)] 1 H1) as (H & _ & _).
  destruct (handleDeleteCartItem_removes_line products
              [Add 11 (int 2); Add 21 (int 1); Add 31 (int 4)] 3 H3) as (_ & _ & H').
  split; [exact H|]. apply H'. by vm_compute.
Defined.

(** ** The - and + buttons of the cart *)

(** X2: [printCart] gives the - and + buttons of a cart line the id of the
    line's product as [data-id], and the two handlers use that number as a
    position in the cart.  When no product of the catalogue has an id below
    [m], a click on the - or + button of any cart line does nothing as long
    as the cart has at most [m] lines.  In the catalogue of the shop the ids
    start at 11: the buttons do nothing in a cart of up to eleven lines. *)
Theorem cart_buttons_do_nothing (catalog : list Product.t) (ops : list CartOp)
    (m i : Z) :
  let s := run ops (startup catalog) in
  (forall p, p ∈ catalog -> m <= Product.id p) ->
  Z.of_nat (length (lines s)) <= m ->
  i ∈ cartIds s ->
  increaseProductFromCart i s = s /\ decreaseProductFromCart i s = s.
Proof.
  intros s Hm Hlen Hi. assert (cartInv s) as Hinv by apply cartInv_run.
  assert (m <= i) as Hmi.
  { assert (i ∈ Product.id <$> heap s) as Hheap.
    { apply list_elem_of_fmap in Hi as (line & -> & Hline).
      apply lines_elem_of in Hline as (r & _ & Hr).
      apply list_elem_of_fmap_2. by eapply list_elem_of_lookup_2. }
    unfold s in Hheap. rewrite run_ids in Hheap.
    apply list_elem_of_fmap in Hheap as (p & -> & Hp). by apply Hm. }
  assert (cartAt i s = None) as Hat.
  { unfold cartAt. destruct (Z.ltb_spec i 0); [done|].
    apply lookup_ge_None_2. rewrite <- lines_length by done. lia. }
  unfold increaseProductFromCart, decreaseProductFromCart. by rewrite Hat.
Qed.

Lemma cart_buttons_do_nothing_witness :
  let s := run [Add 11 (int 2); Add 12 (int 1)] (startup products) in
  increaseProductFromCart 11 s = s /\ decreaseProductFromCart 11 s = s.
Proof.
  intros s.
  apply (cart_buttons_do_nothing products [Add 11 (int 2); Add 12 (int 1)] 11 11).
  - intros p Hp. simpl in Hp.
    repeat (apply elem_of_cons in Hp as [->|Hp]; [by vm_compute|]).
    by apply elem_of_nil in Hp.
  - by vm_compute.
  - apply list_elem_of_here.
Defined.

(** ** One more and one less *)

Lemma alter_fixed {A} (f : A -> A) (l : list A) i x :
  l !! i = Some x -> f x = x -> alter f i l = l.
Proof.
  intros Hi Hx. apply list_eq. intros j. rewrite list_lookup_alter.
  case_decide; [subst j; by rewrite Hi; simpl; rewrite Hx|done].
Qed.

Lemma setAmount_same p v : Product.amount p = Some v -> Product.setAmount v p = p.
Proof. destruct p. simpl. by intros ->. Qed.

Lemma increase_at s rowId r :
  cartAt rowId s = Some r ->
  increaseProductFromCart rowId s =
  mkStore (alter (fun p => Product.setAmount
                    (toNumber (Product.amount p) + int 1)%js p) r (heap s))
          (cart s).
Proof. unfold increaseProductFromCart. by intros ->. Qed.

Lemma decrease_at s rowId r p q :
  cartAt rowId s = Some r -> heap s !! r = Some p ->
  Product.amount p = Some (Num q) ->
  decreaseProductFromCart rowId s =
  if bool_decide (0 < q)%Qc
  then mkStore (alter (fun p => Product.setAmount
                         (toNumber (Product.amount p) - int 1)%js p) r (heap s))
               (cart s)
  else s.
Proof.
  intros Hat Hp Ha. unfold decreaseProductFromCart. rewrite Hat, Hp, Ha.
  cbn [toNumber]. unfold int at 1. by rewrite gt_Num, Qc_of_Z_0.
Qed.

(** X3: on a cart position that holds a line with a whole quantity [z],
    [0 <= z < 2^53] (whole numbers that a JavaScript number holds without
    rounding), [increaseProductFromCart] makes the quantity [z + 1]
    and a following [decreaseProductFromCart] gives back the store; for
    [z] above 0, [decreaseProductFromCart] makes the quantity [z - 1] and
    a following [increaseProductFromCart] gives back the store; at 0 the
    decrement is refused. *)
Theorem increase_decrease_cancel (s : Store) (rowId z : Z) (r : nat)
    (p : Product.t) :
  cartAt rowId s = Some r ->
  heap s !! r = Some p ->
  Product.amount p = Some (int z) ->
  0 <= z < 2 ^ 53 ->
  Product.amount <$> heap (increaseProductFromCart rowId s) !! r =
    Some (Some (int (z + 1))) /\
  decreaseProductFromCart rowId (increaseProductFromCart rowId s) = s /\
  (0 < z ->
   Product.amount <$> heap (decreaseProductFromCart rowId s) !! r =
     Some (Some (int (z - 1))) /\
   increaseProductFromCart rowId (decreaseProductFromCart rowId s) = s) /\
  (z = 0 -> decreaseProductFromCart rowId s = s).
Proof.
  intros Hat Hp Ha [Hz _].
  assert (forall a : Z, bool_decide (0 < Qc_of_Z a)%Qc = bool_decide (0 < a))
    as Hlt.
  { intros a. rewrite <- Qc_of_Z_0. apply bool_decide_ext, Qc_of_Z_lt. }
  split_and!.
  - rewrite (increase_at s rowId r Hat). cbn [heap].
    rewrite list_lookup_alter_eq, Hp. simpl. rewrite Ha. cbn [toNumber].
    by rewrite add_int.
  - rewrite (increase_at s rowId r Hat).
    rewrite (decrease_at _ rowId r
               (Product.setAmount (int (z + 1)) p) (Qc_of_Z (z + 1))).
    + rewrite Hlt, bool_decide_eq_true_2 by lia.
      cbn [heap cart]. rewrite list_alter_alter_eq.
      rewrite (alter_fixed _ _ _ p); [apply store_eta|done|].
      destruct p as [pi pn pp pc pim pa]. cbn [Product.amount] in Ha.
      subst pa. unfold compose, Product.setAmount.
      cbn [Product.id Product.name Product.price Product.category
           Product.img Product.amount toNumber].
      rewrite add_int, sub_int. do 3 f_equal. lia.
    + exact Hat.
    + cbn [heap]. rewrite list_lookup_alter_eq, Hp. simpl. rewrite Ha.
      cbn [toNumber]. by rewrite add_int.
    + reflexivity.
  - intros Hpos. rewrite (decrease_at s rowId r p (Qc_of_Z z)) by done.
    rewrite Hlt, bool_decide_eq_true_2 by done.
    split.
    + cbn [heap]. rewrite list_lookup_alter_eq, Hp. simpl. rewrite Ha.
      cbn [toNumber]. by rewrite sub_int.
    + rewrite (increase_at _ rowId r) by exact Hat.
      cbn [heap cart]. rewrite list_alter_alter_eq.
      rewrite (alter_fixed _ _ _ p); [apply store_eta|done|].
      destruct p as [pi pn pp pc pim pa]. cbn [Product.amount] in Ha.
      subst pa. unfold compose, Product.setAmount.
      cbn [Product.id Product.name Product.price Product.category
           Product.img Product.amount toNumber].
      rewrite sub_int, add_int. do 3 f_equal. lia.
  - intros ->. rewrite (decrease_at s rowId r p (Qc_of_Z 0)) by done.
    rewrite Hlt. by rewrite bool_decide_eq_false_2 by lia.
Qed.

Lemma increase_decrease_cancel_witness :
  let s := run [Add 11 (int 2)] (startup products) in
  Product.amount <$> heap (increaseProductFromCart 0 s) !! 0%nat =
    Some (Some (int 3)) /\
  decreaseProductFromCart 0 (increaseProductFromCart 0 s) = s.
Proof.
  assert (0 <= 2 < 2 ^ 53) as Hz by lia.
  intros s.
  destruct (increase_decrease_cancel s 0 2 0%nat
              (Product.setAmount (int 2) riceCookie)
              eq_refl eq_refl eq_refl Hz) as (Hup & Hback & _).
  split; [exact Hup|exact Hback].
Defined.

(** ** Buying again what was removed *)

Lemma NoDup_delete_lookup {A} (l : list A) k x :
  NoDup l -> l !! k = Some x -> x ∉ delete k l.
Proof.
  intros Hnd Hk (j & Hj)%list_elem_of_lookup_1.
  rewrite list_lookup_delete in Hj.
  pose proof (NoDup_lookup _ _ _ _ Hnd Hk Hj) as Heq.
  case_decide; lia.
Qed.

Lemma add_new_line_found s i v r p :
  cartInv s -> findProduct i s = Some r -> heap s !! r = Some p ->
  (v <=? int 0)%js = false -> i ∉ cartIds s ->
  lines (addProductToCart i v s) = lines s ++ [Product.setAmount v p].
Proof.
  intros Hinv Hfind Hp Hv Hin.
  destruct (findProduct_Some _ _ _ Hfind) as (p' & Hp' & Hid).
  assert (p' = p) as -> by congruence.
  pose proof Hin as Hidx%findIndex_None.
  unfold addProductToCart. rewrite Hfind, Hv, Hidx.
  apply lines_push; [|done].
  intros Hr. apply Hin. rewrite cartIds_alt, list_elem_of_omap.
  exists r. split; [done|]. by rewrite list_lookup_fmap, Hp, <- Hid.
Qed.

(** X4: a product whose line was removed with the delete button and that
    is bought again gets a new line at the end of the cart, and the
    quantity of that line is the quantity bought: what the removed line
    held is not added to it.  The other lines stay as they are, and the
    new line has the catalogue properties of the removed one. *)
Theorem readd_after_delete (catalog : list Product.t) (ops : list CartOp)
    (k : nat) (i : Z) (v : jsnum) :
  let s := run ops (startup catalog) in
  cartIds s !! k = Some i ->
  accepted catalog (i, v) ->
  exists removed line,
    lines s !! k = Some removed /\
    lines (addProductToCart i v (handleDeleteCartItem (Z.of_nat k) s)) =
      delete k (lines s) ++ [line] /\
    Product.id line = i /\
    Product.amount line = Some v /\
    Product.catalogFields line = Product.catalogFields removed.
Proof.
  intros s Hk [Hcat Hv]. assert (cartInv s) as Hinv by apply cartInv_run.
  unfold cartIds in Hk. rewrite list_lookup_fmap in Hk.
  apply fmap_Some in Hk as (p & Hline & ->).
  exists p, (Product.setAmount v p). split; [done|].
  split; [|done].
  pose proof Hline as Hline'. rewrite lines_lookup in Hline' by done.
  apply bind_Some in Hline' as (r & Hr & Hp).
  destruct Hinv as [Hnd Hval].
  destruct (Hval r) as (p' & Hp' & Hfind); [by eapply list_elem_of_lookup_2|].
  assert (p' = p) as -> by congruence.
  set (s1 := handleDeleteCartItem (Z.of_nat k) s).
  assert (cartInv s1) as Hinv1.
  { apply (cartInv_step s (Delete (Z.of_nat k))). by split. }
  assert (lines s1 = delete k (lines s)) as Hlines1.
  { unfold s1. rewrite handleDelete_lines by (by split || lia).
    by rewrite Nat2Z.id. }
  rewrite <- Hlines1. apply (add_new_line_found s1 _ _ r); [done..|].
  unfold cartIds. rewrite Hlines1, list_fmap_delete.
  apply NoDup_delete_lookup.
  - apply cartIds_NoDup. by split.
  - by rewrite list_lookup_fmap, Hline.
Qed.

Lemma readd_after_delete_witness :
  let s := run [Add 11 (int 7); Add 12 (int 1)] (startup products) in
  Product.amount <$> lines s = [Some (int 7); Some (int 1)] /\
  Product.amount <$>
    lines (addProductToCart 11 (int 2) (handleDeleteCartItem 0 s)) =
  [Some (int 1); Some (int 2)].
Proof.
  intros s. split; [reflexivity|].
  destruct (readd_after_delete products [Add 11 (int 7); Add 12 (int 1)]
              0%nat 11 (int 2))
    as (removed & line & _ & Hlines & _ & Hamount & _).
  - reflexivity.
  - split; [apply list_elem_of_here|reflexivity].
  - change (handleDeleteCartItem 0 s)
      with (handleDeleteCartItem (Z.of_nat 0)
              (run [Add 11 (int 7); Add 12 (int 1)] (startup products))).
    rewrite Hlines, fmap_app. simpl. by rewrite Hamount.
Defined.

(** ** Totals are never negative *)

Ltac qc_to_q :=
  unfold Qcle, Qclt in *; cbn [this Q2Qc Qcplus Qcmult Qcminus Qcopp] in *;
  rewrite ?Qred_correct in *.

Lemma Qc_mul_nonneg (a b : Qc) : (0 ≤ a)%Qc -> (0 ≤ b)%Qc -> (0 ≤ a * b)%Qc.
Proof.
  intros Ha Hb. qc_to_q. change (Qred 0) with 0%Q in *.
  by apply Qmult_le_0_compat.
Qed.

Lemma Qc_add_nonneg (a b : Qc) : (0 ≤ a)%Qc -> (0 ≤ b)%Qc -> (0 ≤ a + b)%Qc.
Proof.
  intros Ha Hb. qc_to_q. change (Qred 0) with 0%Q in *. lra.
Qed.

Lemma Qc_dec_nonneg (n : Z) (d : positive) : 0 <= n -> (0 ≤ Q2Qc (n # d))%Qc.
Proof.
  intros Hn. qc_to_q. change (Qred 0) with 0%Q. unfold Qle. simpl. lia.
Qed.

Lemma Qc_tenth_le (a : Qc) : (0 ≤ a)%Qc -> (a * Q2Qc (1 # 10) ≤ a)%Qc.
Proof. intros Ha. qc_to_q. change (Qred 0) with 0%Q in *. lra. Qed.

Lemma Qc_sub_nonneg (a b : Qc) : (b ≤ a)%Qc -> (0 ≤ a - b)%Qc.
Proof.
  intros Hab. unfold Qcminus. qc_to_q. change (Qred 0) with 0%Q in *. lra.
Qed.

Lemma unitPrice_nonneg count now line a :
  Product.price line = Num a -> (0 ≤ a)%Qc ->
  exists u, unitPrice count now line = Num u /\ (0 ≤ u)%Qc.
Proof.
  intros Hprice Ha. unfold unitPrice, applyBulkDiscount, priceAt.
  rewrite Hprice.
  assert (0 ≤ Q2Qc (115 # 100))%Qc as H115 by (by apply Qc_dec_nonneg).
  assert (0 ≤ Q2Qc (9 # 10))%Qc as H9 by (by apply Qc_dec_nonneg).
  destruct (isWeekendSurcharge now),
    (toNumber (count !! Product.category line) >=? BULK_THRESHOLD)%js;
    simpl; eexists; (split; [reflexivity|]);
    auto using Qc_mul_nonneg.
Qed.

Lemma subtotals_nonneg count (c : Clock) n ls tot :
  Forall pricedLine ls -> (0 ≤ tot)%Qc ->
  exists t, subtotals (Num tot) (unitPrices count c n ls) ls = Num t /\ (0 ≤ t)%Qc.
Proof.
  revert n tot. induction ls as [|line ls IH]; intros n tot Hls Htot.
  { by exists tot. }
  apply Forall_cons in Hls as [(a & q & Hprice & Ha & Hq & Hq0) Hls].
  destruct (unitPrice_nonneg count (c n) line a Hprice Ha) as (u & Hu & Hu0).
  unfold subtotals. simpl. rewrite Hu, Hq. simpl.
  apply (IH (S n) (tot + u * q)%Qc Hls).
  auto using Qc_add_nonneg, Qc_mul_nonneg.
Qed.

Lemma sumQ_nonneg (l : list Qc) : Forall (fun q => 0 ≤ q)%Qc l -> (0 ≤ sumQ l)%Qc.
Proof.
  induction 1 as [|q l Hq _ IH]; simpl; [done|]. by apply Qc_add_nonneg.
Qed.


(** The carts that the handlers produce from a catalogue whose prices are
    numbers and not negative, when the quantities bought are integers, meet
    the hypothesis of X5. *)
Lemma reachable_pricedLine (catalog : list Product.t) (ops : list CartOp) :
  Forall (fun p => exists a, Product.price p = Num a /\ (0 ≤ a)%Qc) catalog ->
  Forall integralOp ops ->
  Forall pricedLine (lines (run ops (startup catalog))).
Proof.
  intros Hcat Hops. apply Forall_forall.
  intros line (r & Hr & Hline)%lines_elem_of.
  assert (amountInv (run ops (startup catalog))) as Hinv.
  { apply (run_invariant amountInv integralOp);
      auto using amountInv_step, amountInv_startup. }
  destruct (Hinv r Hr) as (p & z & Hp & Ha & Hz).
  assert (line = p) as -> by congruence.
  pose proof (run_catalogFields ops (startup catalog)) as Hfields.
  apply (f_equal (fun l => l !! r)) in Hfields.
  rewrite !list_lookup_fmap, Hp in Hfields. simpl in Hfields.
  symmetry in Hfields. apply fmap_Some in Hfields as (p0 & Hp0 & Heq).
  rewrite Forall_forall in Hcat.
  destruct (Hcat p0) as (a & Hprice & Ha0); [by eapply list_elem_of_lookup_2|].
  exists a, (Qc_of_Z z). split_and!; [|done|done|].
  - apply (f_equal (fun x => x.1.1.2)) in Heq. simpl in Heq. congruence.
  - rewrite <- Qc_of_Z_0. by apply Qc_of_Z_le.
Qed.


(** * The product listing *)

(** ** The amount field *)

Lemma lt_int a b : (int a <? int b)%js = bool_decide (a < b).
Proof. unfold int. simpl. apply bool_decide_ext, Qc_of_Z_lt. Qed.

Lemma click_int z b :
  0 <= z -> exists z', click (int z) b = int z' /\ 0 <= z' <= z + 1.
Proof.
  intros Hz. destruct b; cbn [click].
  - unfold increaseProductCount. rewrite add_int. exists (z + 1). split; [done|lia].
  - unfold decreaseProductCount. rewrite sub_int, lt_int.
    case_bool_decide; [exists 0|exists (z - 1)]; split; (done || lia).
Qed.


(** ** Sorting the listing *)

Section sorting.
Context {A : Type} (comparefn : A -> A -> jsnum).

Lemma insertSorted_Permutation x (l : list A) :
  insertSorted comparefn x l ≡ₚ x :: l.
Proof.
  induction l as [|y l IH]; cbn [insertSorted]; [done|].
  destruct (comparefn x y >? int 0)%js; [|done].
  rewrite IH. apply Permutation_swap.
Qed.

Lemma sortArray_Permutation (l : list A) : sortArray comparefn l ≡ₚ l.
Proof.
  induction l as [|x l IH]; [done|].
  change (sortArray comparefn (x :: l))
    with (insertSorted comparefn x (sortArray comparefn l)).
  by rewrite insertSorted_Permutation, IH.
Qed.

(** Elements of one class that never compare greater than one another
    keep their order. *)
Lemma sortArray_stable (Q : A -> Prop) `{!forall x, Decision (Q x)} (l : list A) :
  (forall x y, Q x -> Q y -> (comparefn x y >? int 0)%js = false) ->
  filter Q (sortArray comparefn l) = filter Q l.
Proof.
  intros HQ.
  assert (forall x k, filter Q (insertSorted comparefn x k) = filter Q (x :: k))
    as Hins.
  { intros x k. induction k as [|y k IH]; cbn [insertSorted]; [done|].
    destruct (comparefn x y >? int 0)%js eqn:Hxy; [|done].
    rewrite (filter_cons _ y), IH, !filter_cons.
    destruct (decide (Q x)) as [Hx|Hx], (decide (Q y)) as [Hy|Hy]; try done.
    by rewrite HQ in Hxy. }
  induction l as [|x l IH]; [done|].
  change (sortArray comparefn (x :: l))
    with (insertSorted comparefn x (sortArray comparefn l)).
  by rewrite Hins, !filter_cons, IH.
Qed.

Context (key : A -> Qc) (P : A -> Prop).
Hypothesis comparefn_key :
  forall x y, P x -> P y -> comparefn x y = Num (key x - key y)%Qc.

Lemma comparefn_after x y :
  P x -> P y -> (comparefn x y >? int 0)%js = bool_decide (key y < key x)%Qc.
Proof.
  intros Hx Hy. rewrite comparefn_key by done. unfold int. rewrite gt_Num.
  apply bool_decide_ext. rewrite Qc_of_Z_0. unfold Qcminus.
  split; intros H; qc_to_q; change (Qred 0) with 0%Q in *; lra.
Qed.

Lemma insertSorted_sorted x (l : list A) :
  P x -> Forall P l ->
  StronglySorted (fun a b => key a ≤ key b)%Qc l ->
  StronglySorted (fun a b => key a ≤ key b)%Qc (insertSorted comparefn x l).
Proof.
  intros Hx HP Hl. induction Hl as [|y l Hl IH Hy]; cbn [insertSorted].
  { repeat constructor. }
  apply Forall_cons in HP as [HPy HP].
  rewrite comparefn_after by done. case_bool_decide as Hxy.
  - constructor; [by apply IH|].
    rewrite insertSorted_Permutation. constructor; [|done].
    by apply Qclt_le_weak.
  - apply Qcnot_lt_le in Hxy. constructor; [by constructor|].
    constructor; [done|]. eapply Forall_impl; [exact Hy|].
    intros z Hz. simpl in *. by apply Qcle_trans with (key y).
Qed.

Lemma sortArray_sorted (l : list A) :
  Forall P l ->
  StronglySorted (fun a b => key a ≤ key b)%Qc (sortArray comparefn l).
Proof.
  induction 1 as [|x l Hx Hl IH]; [constructor|].
  change (sortArray comparefn (x :: l))
    with (insertSorted comparefn x (sortArray comparefn l)).
  apply insertSorted_sorted; [done| |done].
  by rewrite sortArray_Permutation.
Qed.
End sorting.

Lemma StronglySorted_impl {A} (R R' : A -> A -> Prop) (l : list A) :
  (forall a b, R a b -> R' a b) -> StronglySorted R l -> StronglySorted R' l.
Proof.
  intros HR. induction 1 as [|x l _ IH Hx]; constructor; [done|].
  eapply Forall_impl; [exact Hx|]. intros y. apply HR.
Qed.

Lemma hasPrice_priceValue p : hasPrice p -> Product.price p = Num (priceValue p).
Proof. intros [a Ha]. unfold priceValue. by rewrite Ha. Qed.

(** X7: [sortProducts] keeps every listed product, each once, and, when
    all listed prices are numbers, leaves the listing sorted by price:
    upwards for the choice "low", downwards for every other choice. *)
Theorem sortProducts_sorted (selectedSortValue : string)
    (listed : list Product.t) :
  Forall hasPrice listed ->
  sortProducts selectedSortValue listed ≡ₚ listed /\
  (selectedSortValue = "low" ->
   StronglySorted (fun a b => priceValue a ≤ priceValue b)%Qc
                  (sortProducts selectedSortValue listed)) /\
  (selectedSortValue <> "low" ->
   StronglySorted (fun a b => priceValue b ≤ priceValue a)%Qc
                  (sortProducts selectedSortValue listed)).
Proof.
  intros Hprices. unfold sortProducts. split_and!.
  - case_bool_decide; apply sortArray_Permutation.
  - intros Hlow. rewrite bool_decide_eq_true_2 by done.
    apply (sortArray_sorted _ priceValue hasPrice); [|done].
    intros x y Hx Hy. by rewrite (hasPrice_priceValue x), (hasPrice_priceValue y).
  - intros Hhigh. rewrite bool_decide_eq_false_2 by done.
    apply (StronglySorted_impl (fun a b => - priceValue a ≤ - priceValue b)%Qc).
    { intros a b Hab. apply Qcopp_le_compat in Hab.
      by rewrite !Qcopp_involutive in Hab. }
    apply (sortArray_sorted _ (fun p => - priceValue p)%Qc hasPrice); [|done].
    intros x y Hx Hy.
    rewrite (hasPrice_priceValue x), (hasPrice_priceValue y) by done.
    simpl. f_equal. ring.
Qed.

Lemma sortProducts_sorted_witness :
  let listed := filterProducts "drinks" products in
  sortProducts "high" listed ≡ₚ listed /\
  StronglySorted (fun a b => priceValue b ≤ priceValue a)%Qc
                 (sortProducts "high" listed).
Proof.
  intros listed.
  assert (Forall hasPrice listed) as Hprices.
  { apply Forall_forall. intros p Hp.
    apply list_elem_of_filter in Hp as [_ Hp]. unfold products in Hp.
    repeat (apply elem_of_cons in Hp as [->|Hp]; [by eexists|]).
    by apply elem_of_nil in Hp. }
  destruct (sortProducts_sorted "high" listed Hprices) as (Hperm & _ & Hdown).
  split; [exact Hperm|]. by apply Hdown.
Defined.

(** X8: [sortProducts] is stable: the listed products of one price stand
    in the same order after the sort as before it, whatever the choice. *)
Theorem sortProducts_stable (selectedSortValue : string) (value : jsnum)
    (listed : list Product.t) :
  filter (fun p => Product.price p = value) (sortProducts selectedSortValue listed) =
  filter (fun p => Product.price p = value) listed.
Proof.
  assert (((value - value) >? int 0)%js = false) as Hsame.
  { destruct value as [a|]; [|done]. unfold int. simpl.
    apply bool_decide_eq_false_2. rewrite Qc_of_Z_0.
    replace (a - a)%Qc with 0%Qc by ring. intros H. by apply Qclt_not_eq in H. }
  unfold sortProducts.
  case_bool_decide; apply sortArray_stable; by intros x y -> ->.
Qed.

(** ** Form input formatting *)

Lemma removeAll_app cls (s1 s2 : Str.t) :
  Str.removeAll cls (s1 ++ s2) = Str.removeAll cls s1 ++ Str.removeAll cls s2.
Proof. apply filter_app. Qed.

Lemma removeAll_keep cls (s : Str.t) :
  Forall (fun c => cls c = false) s -> Str.removeAll cls s = s.
Proof.
  unfold Str.removeAll. induction 1 as [|c s Hc _ IH]; [done|].
  rewrite filter_cons_True by done. by rewrite IH.
Qed.

Lemma removeAll_drop cls (s : Str.t) :
  Forall (fun c => cls c = true) s -> Str.removeAll cls s = [].
Proof.
  unfold Str.removeAll. induction 1 as [|c s Hc _ IH]; [done|].
  rewrite filter_cons_False by congruence. done.
Qed.

Lemma removeAll_Forall cls (s : Str.t) :
  Forall (fun c => cls c = false) (Str.removeAll cls s).
Proof. apply Forall_forall. intros c Hc. by apply list_elem_of_filter in Hc as [? _]. Qed.

Lemma removeAll_idemp cls (s : Str.t) :
  Str.removeAll cls (Str.removeAll cls s) = Str.removeAll cls s.
Proof. apply removeAll_keep, removeAll_Forall. Qed.

Lemma lineTerminator_isWhiteSpace (c : N) :
  Str.isLineTerminator c = true -> Str.isWhiteSpace c = true.
Proof.
  unfold Str.isLineTerminator, Str.isWhiteSpace. intros Hc.
  apply bool_decide_eq_true in Hc. apply orb_true_iff. left.
  apply bool_decide_eq_true.
  repeat (apply elem_of_cons in Hc as [->|Hc]; [compute_done|]).
  by apply elem_of_nil in Hc.
Qed.

Lemma elem_of_concat_chunk {A} (x : A) (chunk : list A) (chunks : list (list A)) :
  x ∈ chunk -> chunk ∈ chunks -> x ∈ concat chunks.
Proof.
  intros Hx Hchunk. induction chunks as [|y chunks IH].
  - by apply elem_of_nil in Hchunk.
  - simpl. apply elem_of_app.
    apply elem_of_cons in Hchunk as [<-|Hchunk]; auto.
Qed.

(** What [join] leaves when its separators are taken out again. *)
Lemma removeAll_join cls (sep : Str.t) (parts : list Str.t) :
  Forall (fun c => cls c = true) sep ->
  Forall (Forall (fun c => cls c = false)) parts ->
  Str.removeAll cls (Str.join sep parts) = concat parts.
Proof.
  intros Hsep. induction 1 as [|x rest Hx _ IH]; [done|].
  destruct rest as [|y rest].
  - simpl. rewrite app_nil_r. by apply removeAll_keep.
  - change (Str.join sep (x :: y :: rest))
      with (x ++ sep ++ Str.join sep (y :: rest)).
    rewrite !removeAll_app, IH, (removeAll_keep _ x), (removeAll_drop _ sep);
      done.
Qed.

(** The matches of [/.{1,4}/g] in a string without line terminators: they
    make up the string, each has four code units but the last, which has
    from one to four. *)
Lemma matchChunks_groups (s : Str.t) : forall room cur,
  Forall (fun c => Str.isLineTerminator c = false) s ->
  (room + length cur = 4)%nat ->
  cur ++ s <> [] ->
  exists full rest,
    Str.matchChunks room cur s = full ++ [rest] /\
    concat (full ++ [rest]) = cur ++ s /\
    Forall (fun chunk => length chunk = 4%nat) full /\
    (1 <= length rest <= 4)%nat.
Proof.
  induction s as [|c s IH]; intros room cur Hs Hroom Hne.
  - rewrite app_nil_r in *. exists [], cur. simpl.
    destruct cur as [|a cur]; [done|]. rewrite app_nil_r.
    split_and!; [done|done|constructor|simpl; lia|lia].
  - apply Forall_cons in Hs as [Hc Hs]. cbn [Str.matchChunks]. rewrite Hc.
    destruct room as [|room].
    + destruct (IH 3%nat [c] Hs) as (full & rest & -> & Hcat & Hfull & Hrest);
        [done|done|].
      exists (cur :: full), rest. split_and!; [done| |by constructor|lia|lia].
      simpl. by rewrite Hcat.
    + destruct (IH room (cur ++ [c]) Hs) as (full & rest & -> & Hcat & Hfull & Hrest).
      { rewrite length_app. simpl. lia. }
      { by destruct cur. }
      exists full, rest. split_and!; [done| |done|lia|lia].
      by rewrite Hcat, <- app_assoc.
Qed.

Lemma join_nonempty (sep : Str.t) (full : list Str.t) (rest : Str.t) :
  rest <> [] -> Str.join sep (full ++ [rest]) <> [].
Proof.
  intros Hrest. induction full as [|x full IH]; [done|].
  change ((x :: full) ++ [rest]) with (x :: (full ++ [rest])).
  destruct (full ++ [rest]) as [|y more] eqn:Heq; [by destruct full|].
  change (Str.join sep (x :: y :: more))
    with (x ++ sep ++ Str.join sep (y :: more)).
  intros Hnil. apply app_eq_nil in Hnil as [_ Hnil].
  apply app_eq_nil in Hnil as [_ Hnil]. done.
Qed.

(** X9: [formatCardNumberInput] writes back the code units of the field
    that are not white space, in their order, in groups of four with one
    space between two groups: every group but the last has four code
    units, the last from one to four.  Taking the white space out of the
    result gives what taking it out of the input gives, and formatting a
    formatted value changes nothing. *)
Theorem formatCardNumberInput_groups (targetValue : Str.t) :
  let value := Str.removeAll Str.isWhiteSpace targetValue in
  (value = [] -> formatCardNumberInput targetValue = []) /\
  (value <> [] ->
   exists full rest,
     formatCardNumberInput targetValue = Str.join (Str.lit " ") (full ++ [rest]) /\
     concat (full ++ [rest]) = value /\
     Forall (fun chunk => length chunk = 4%nat) full /\
     (1 <= length rest <= 4)%nat) /\
  Str.removeAll Str.isWhiteSpace (formatCardNumberInput targetValue) = value /\
  formatCardNumberInput (formatCardNumberInput targetValue) =
    formatCardNumberInput targetValue.
Proof.
  intros value.
  assert (Forall (fun c => Str.isWhiteSpace c = false) value) as Hws
    by apply removeAll_Forall.
  assert (Forall (fun c => Str.isLineTerminator c = false) value) as Hlt.
  { eapply Forall_impl; [exact Hws|]. intros c Hc.
    destruct (Str.isLineTerminator c) eqn:Hl; [|done].
    apply lineTerminator_isWhiteSpace in Hl. congruence. }
  assert (value = [] -> formatCardNumberInput targetValue = []) as Hempty.
  { intros Hv. unfold formatCardNumberInput. fold value. by rewrite Hv. }
  assert (value <> [] ->
   exists full rest,
     formatCardNumberInput targetValue = Str.join (Str.lit " ") (full ++ [rest]) /\
     concat (full ++ [rest]) = value /\
     Forall (fun chunk => length chunk = 4%nat) full /\
     (1 <= length rest <= 4)%nat) as Hgroups.
  { intros Hv.
    destruct (matchChunks_groups value 4 [] Hlt) as (full & rest & Hm & Hcat & Hfull & Hrest);
      [done|done|].
    exists full, rest. split_and!; [|done|done|lia|lia].
    unfold formatCardNumberInput. fold value. rewrite Hm.
    assert (Str.join (Str.lit " ") (full ++ [rest]) <> []) as Hj.
    { apply join_nonempty. intros ->. simpl in Hrest. lia. }
    destruct (full ++ [rest]) as [|x more] eqn:Hch; [by destruct full|].
    by destruct (Str.join (Str.lit " ") (x :: more)). }
  assert (Str.removeAll Str.isWhiteSpace (formatCardNumberInput targetValue) = value)
    as Hdigits.
  { destruct (decide (value = [])) as [Hv|Hv].
    - by rewrite (Hempty Hv), Hv.
    - destruct (Hgroups Hv) as (full & rest & -> & Hcat & _).
      rewrite removeAll_join; [done| |].
      + by repeat constructor.
      + apply Forall_forall. intros chunk Hchunk.
        apply Forall_forall. intros c Hc.
        apply (proj1 (Forall_forall _ _) Hws). rewrite <- Hcat.
        by apply (elem_of_concat_chunk c chunk). }
  split_and!; [done|done|done|].
  unfold formatCardNumberInput at 1 3. by rewrite Hdigits.
Qed.

Lemma Forall_digits (s : Str.t) :
  Forall (fun c => Str.notDigit c = false) (Str.removeAll Str.notDigit s).
Proof. apply removeAll_Forall. Qed.

Lemma removeAll_take cls (n : nat) (s : Str.t) :
  Forall (fun c => cls c = false) s -> Str.removeAll cls (take n s) = take n s.
Proof. intros Hs. by apply removeAll_keep, Forall_take. Qed.

Lemma removeAll_take_drop cls (n m : nat) (s : Str.t) :
  Forall (fun c => cls c = false) s ->
  Str.removeAll cls (take n (drop m s)) = take n (drop m s).
Proof. intros Hs. by apply removeAll_keep, Forall_take, Forall_drop. Qed.

Lemma drop_take_add {A} (l : list A) (m n : nat) :
  drop m (take (m + n) l) = take n (drop m l).
Proof. by rewrite take_drop_commute. Qed.

Lemma expiryOf_take (value : Str.t) : expiryOf (take 4 value) = expiryOf value.
Proof.
  unfold expiryOf. rewrite length_take.
  destruct (2 <=? length value)%nat eqn:Hlen.
  - apply Nat.leb_le in Hlen.
    rewrite (proj2 (Nat.leb_le 2 _)) by lia.
    rewrite take_take. change (2 `min` 4)%nat with 2%nat.
    change 4%nat with (2 + 2)%nat.
    by rewrite (drop_take_add value 2 2), take_idemp.
  - apply Nat.leb_gt in Hlen. rewrite (proj2 (Nat.leb_gt 2 _)) by lia.
    apply take_ge. lia.
Qed.

(** X10: [formatExpiryInput] keeps the first four digits of the field and
    nothing else but one slash: the value written back has at most five
    code units, its digits are the first four digits of the input, a slash
    stands behind the second digit as soon as there are two, and
    formatting a formatted value changes nothing. *)
Theorem formatExpiryInput_digits (targetValue : Str.t) :
  let value := Str.removeAll Str.notDigit targetValue in
  Str.removeAll Str.notDigit (formatExpiryInput targetValue) = take 4 value /\
  (length (formatExpiryInput targetValue) <= 5)%nat /\
  (length value < 2 -> formatExpiryInput targetValue = value)%nat /\
  (2 <= length value ->
   take 3 (formatExpiryInput targetValue) = take 2 value ++ Str.lit "/")%nat /\
  formatExpiryInput (formatExpiryInput targetValue) =
    formatExpiryInput targetValue.
Proof.
  intros value.
  assert (Forall (fun c => Str.notDigit c = false) value) as Hd
    by apply Forall_digits.
  assert (formatExpiryInput targetValue = expiryOf value) as Hfmt by done.
  assert (Str.removeAll Str.notDigit (formatExpiryInput targetValue) = take 4 value)
    as Hdigits.
  { rewrite Hfmt. unfold expiryOf.
    destruct (2 <=? length value)%nat eqn:Hlen.
    - rewrite !removeAll_app, removeAll_take, removeAll_take_drop by done.
      change (Str.removeAll Str.notDigit (Str.lit "/")) with (@nil N).
      by rewrite app_nil_l, take_take_drop.
    - apply Nat.leb_gt in Hlen. rewrite removeAll_keep by done.
      symmetry. apply take_ge. lia. }
  split_and!.
  - done.
  - rewrite Hfmt. unfold expiryOf.
    destruct (2 <=? length value)%nat eqn:Hlen.
    + rewrite !length_app, !length_take.
      change (length (Str.lit "/")) with 1%nat. lia.
    + apply Nat.leb_gt in Hlen. lia.
  - intros Hlen. rewrite Hfmt. unfold expiryOf.
    by rewrite (proj2 (Nat.leb_gt 2 _)) by lia.
  - intros Hlen. rewrite Hfmt. unfold expiryOf.
    rewrite (proj2 (Nat.leb_le 2 _)) by lia.
    rewrite app_assoc. rewrite take_app_le.
    + apply take_ge. rewrite length_app, length_take.
      change (length (Str.lit "/")) with 1%nat. lia.
    + rewrite length_app, length_take.
      change (length (Str.lit "/")) with 1%nat. lia.
  - change (formatExpiryInput (formatExpiryInput targetValue))
      with (expiryOf (Str.removeAll Str.notDigit (formatExpiryInput targetValue))).
    by rewrite Hdigits, expiryOf_take.
Qed.

Lemma phoneOf_cases (value : Str.t) :
  (length value <= 3 /\ phoneOf value = value)%nat \/
  (3 < length value <= 6 /\
   phoneOf value = Str.lit "(" ++ take 3 value ++ Str.lit ") " ++ drop 3 value)%nat \/
  (6 < length value /\
   phoneOf value = Str.lit "(" ++ take 3 value ++ Str.lit ") " ++
                   take 3 (drop 3 value) ++ Str.lit "-" ++ take 4 (drop 6 value))%nat.
Proof.
  unfold phoneOf.
  destruct (0 <? length value)%nat eqn:H0;
    [|apply Nat.ltb_ge in H0; left; split; [lia|done]].
  destruct (length value <=? 3)%nat eqn:H3;
    [apply Nat.leb_le in H3; left; split; [lia|done]|].
  apply Nat.leb_gt in H3.
  destruct (length value <=? 6)%nat eqn:H6.
  - apply Nat.leb_le in H6. right; left. split; [lia|done].
  - apply Nat.leb_gt in H6. right; right. split; [lia|done].
Qed.

Lemma phoneOf_digits (value : Str.t) :
  Forall (fun c => Str.notDigit c = false) value ->
  Str.removeAll Str.notDigit (phoneOf value) = take 10 value.
Proof.
  intros Hd.
  destruct (phoneOf_cases value) as [[Hlen ->]|[[Hlen ->]|[Hlen ->]]].
  - rewrite removeAll_keep by done. symmetry. apply take_ge. lia.
  - rewrite !removeAll_app, removeAll_take by done.
    rewrite (removeAll_keep _ (drop 3 value)) by by apply Forall_drop.
    change (Str.removeAll Str.notDigit (Str.lit "(")) with (@nil N).
    change (Str.removeAll Str.notDigit (Str.lit ") ")) with (@nil N).
    rewrite !app_nil_l, take_drop. symmetry. apply take_ge. lia.
  - rewrite !removeAll_app, removeAll_take, !removeAll_take_drop by done.
    change (Str.removeAll Str.notDigit (Str.lit "(")) with (@nil N).
    change (Str.removeAll Str.notDigit (Str.lit ") ")) with (@nil N).
    change (Str.removeAll Str.notDigit (Str.lit "-")) with (@nil N).
    rewrite !app_nil_l. rewrite app_assoc, take_take_drop.
    change (3 + 3)%nat with 6%nat. by rewrite take_take_drop.
Qed.

Lemma phoneOf_take (value : Str.t) : phoneOf (take 10 value) = phoneOf value.
Proof.
  destruct (decide (length value <= 10)%nat) as [Hle|Hgt].
  { by rewrite take_ge. }
  unfold phoneOf. rewrite length_take.
  rewrite !(proj2 (Nat.ltb_lt 0 _)) by lia.
  rewrite !(proj2 (Nat.leb_gt _ 3)) by lia.
  rewrite !(proj2 (Nat.leb_gt _ 6)) by lia.
  rewrite take_take. change (3 `min` 10)%nat with 3%nat.
  change (drop 3 (take 10 value)) with (drop 3 (take (3 + 7) value)).
  rewrite (drop_take_add value 3 7), take_take.
  change (3 `min` 7)%nat with 3%nat.
  change (drop 6 (take 10 value)) with (drop 6 (take (6 + 4) value)).
  by rewrite (drop_take_add value 6 4), take_idemp.
Qed.

(** X11: [formatPhoneNumberInput] keeps the first ten digits of the field
    and nothing else but brackets, a space and a hyphen: the digits of the
    value written back are the first ten digits of the input, it has at
    most fourteen code units, up to three digits are written back alone,
    and formatting a formatted value changes nothing. *)
Theorem formatPhoneNumberInput_digits (targetValue : Str.t) :
  let value := Str.removeAll Str.notDigit targetValue in
  Str.removeAll Str.notDigit (formatPhoneNumberInput targetValue) = take 10 value /\
  (length (formatPhoneNumberInput targetValue) <= 14)%nat /\
  (length value <= 3 -> formatPhoneNumberInput targetValue = value)%nat /\
  formatPhoneNumberInput (formatPhoneNumberInput targetValue) =
    formatPhoneNumberInput targetValue.
Proof.
  intros value.
  assert (Forall (fun c => Str.notDigit c = false) value) as Hd
    by apply Forall_digits.
  assert (formatPhoneNumberInput targetValue = phoneOf value) as Hfmt by done.
  split_and!.
  - rewrite Hfmt. by apply phoneOf_digits.
  - rewrite Hfmt.
    destruct (phoneOf_cases value) as [[Hlen ->]|[[Hlen ->]|[Hlen ->]]].
    + lia.
    + rewrite !length_app, length_take, length_drop.
      change (length (Str.lit "(")) with 1%nat.
      change (length (Str.lit ") ")) with 2%nat. lia.
    + rewrite !length_app, !length_take.
      change (length (Str.lit "(")) with 1%nat.
      change (length (Str.lit ") ")) with 2%nat.
      change (length (Str.lit "-")) with 1%nat. lia.
  - intros Hlen. rewrite Hfmt.
    destruct (phoneOf_cases value) as [[_ ->]|[[Hlen' _]|[Hlen' _]]]; [done|lia|lia].
  - change (formatPhoneNumberInput (formatPhoneNumberInput targetValue))
      with (phoneOf (Str.removeAll Str.notDigit (formatPhoneNumberInput targetValue))).
    rewrite Hfmt, phoneOf_digits by done. apply phoneOf_take.
Qed.

(** ** Form validation *)

(** The matcher decides the language of a pattern. *)
Lemma nullable_lang (r : Re.t) : Re.nullable r = true <-> Re.lang r [].
Proof.
  induction r as [| |cls|a IHa b IHb|a IHa b IHb|a IHa|a IHa b IHb|a IHa]; simpl.
  - split; [done|tauto].
  - done.
  - split; [done|]. by intros (c & ? & _).
  - rewrite andb_true_iff, IHa, IHb. split.
    + intros [Ha Hb]. by exists [], [].
    + intros (s1 & s2 & Hs & Ha & Hb). symmetry in Hs.
      apply app_eq_nil in Hs as [-> ->]. done.
  - by rewrite orb_true_iff, IHa, IHb.
  - split; [intros _; constructor|done].
  - by rewrite andb_true_iff, IHa, IHb.
  - rewrite negb_true_iff, <- IHa. by destruct (Re.nullable a).
Qed.

Lemma star_cons_inv (L : list N -> Prop) (c : N) (s : list N) :
  Re.star L (c :: s) ->
  exists s1 s2, s = s1 ++ s2 /\ L (c :: s1) /\ Re.star L s2.
Proof.
  intros H. remember (c :: s) as cs eqn:Hcs. revert c s Hcs.
  induction H as [|s1 s2 H1 H2 IH]; intros c s Hcs; [done|].
  destruct s1 as [|c1 s1].
  - by apply IH.
  - simpl in Hcs. injection Hcs as -> <-. by exists s1, s2.
Qed.

Lemma deriv_lang (r : Re.t) (c : N) : forall s,
  Re.lang (Re.deriv c r) s <-> Re.lang r (c :: s).
Proof.
  induction r as [| |cls|a IHa b IHb|a IHa b IHb|a IHa|a IHa b IHb|a IHa];
    intros s; simpl.
  - done.
  - done.
  - destruct (cls c) eqn:Hc; simpl.
    + split; [intros ->; by exists c|]. intros (c' & [= -> ->] & _). done.
    + split; [done|]. intros (c' & [= -> ->] & Hc'). congruence.
  - split.
    + intros [(s1 & s2 & -> & Ha & Hb)|Hb].
      * exists (c :: s1), s2. by rewrite <- IHa.
      * destruct (Re.nullable a) eqn:Hn; [|done].
        exists [], (c :: s). rewrite <- nullable_lang, <- IHb. done.
    + intros (s1 & s2 & Hs & Ha & Hb). destruct s1 as [|c1 s1].
      * right. simpl in Hs. subst s2.
        rewrite (proj2 (nullable_lang a) Ha). by apply IHb.
      * left. simpl in Hs. injection Hs as <- ->.
        exists s1, s2. by rewrite IHa.
  - by rewrite IHa, IHb.
  - split.
    + intros (s1 & s2 & -> & Ha & Hs).
      apply (Re.star_app _ (c :: s1) s2); [by apply IHa|done].
    + intros H. apply star_cons_inv in H as (s1 & s2 & -> & Ha & Hs).
      exists s1, s2. by rewrite IHa.
  - by rewrite IHa, IHb.
  - by rewrite IHa.
Qed.

Lemma matches_lang (r : Re.t) (s : list N) :
  Re.matches r s = true <-> Re.lang r s.
Proof.
  revert r. induction s as [|c s IH]; intros r; simpl.
  - apply nullable_lang.
  - by rewrite IH, deriv_lang.
Qed.

Lemma minLen_lang (r : Re.t) : forall s, Re.lang r s -> (minLen r <= length s)%nat.
Proof.
  induction r as [| |cls|a IHa b IHb|a IHa b IHb|a IHa|a IHa b IHb|a IHa];
    intros s; simpl; try lia.
  - by intros (c & -> & _).
  - intros (s1 & s2 & -> & Ha & Hb). rewrite length_app.
    specialize (IHa _ Ha). specialize (IHb _ Hb). lia.
  - intros [Ha|Hb]; [specialize (IHa _ Ha)|specialize (IHb _ Hb)]; lia.
  - intros [Ha Hb]. specialize (IHa _ Ha). specialize (IHb _ Hb). lia.
Qed.

Lemma isVoid_lang (r : Re.t) : forall s, isVoid r = true -> ~ Re.lang r s.
Proof.
  induction r as [| |cls|a IHa b IHb|a IHa b IHb|a IHa|a IHa b IHb|a IHa];
    intros s; simpl; try done.
  - auto.
  - intros Hv (s1 & s2 & -> & Ha & Hb).
    apply orb_true_iff in Hv as [Hv|Hv]; [by apply (IHa s1)|by apply (IHb s2)].
  - intros Hv [Ha|Hb]; apply andb_true_iff in Hv as [Hva Hvb];
      [by apply (IHa s)|by apply (IHb s)].
  - intros Hv [Ha Hb].
    apply orb_true_iff in Hv as [Hv|Hv]; [by apply (IHa s)|by apply (IHb s)].
Qed.

(** A value too short for a pattern, or whose first code unit the pattern
    cannot start with, does not pass. *)
Lemma matches_short (r : Re.t) (s : list N) :
  (length s < minLen r)%nat -> Re.matches r s = false.
Proof.
  intros Hlen. destruct (Re.matches r s) eqn:Hm; [|done].
  apply matches_lang, minLen_lang in Hm. lia.
Qed.

Lemma matches_first (r : Re.t) (c : N) (s : list N) :
  isVoid (Re.deriv c r) = true -> Re.matches r (c :: s) = false.
Proof.
  intros Hv. destruct (Re.matches r (c :: s)) eqn:Hm; [|done].
  simpl in Hm. apply matches_lang in Hm. by apply isVoid_lang in Hm.
Qed.

(** X12: the value [formatPhoneNumberInput] writes into the phone field
    never passes the phone pattern of [validationPatterns]: with up to
    three digits it is too short, and with more it starts with a bracket,
    which the pattern does not allow. *)
Theorem formatted_phone_never_valid (targetValue : Str.t) :
  validateField (formatPhoneNumberInput targetValue) Key.phone = false.
Proof.
  change (formatPhoneNumberInput targetValue)
    with (phoneOf (Str.removeAll Str.notDigit targetValue)).
  unfold validateField.
  destruct (phoneOf_cases (Str.removeAll Str.notDigit targetValue))
    as [[Hlen ->]|[[_ ->]|[_ ->]]].
  - apply matches_short.
    change (minLen (validationPatterns Key.phone)) with 10%nat. lia.
  - by apply matches_first.
  - by apply matches_first.
Qed.

(** *** The name patterns *)

Lemma letters_star (x : list N) :
  Re.star (Re.lang (Re.Chr Cls.letter)) x ->
  Forall (fun c => Cls.letter c = true) x.
Proof.
  induction 1 as [|s1 s2 (c & -> & Hc) _ IH]; [constructor|].
  by constructor.
Qed.

Lemma star_letters (x : list N) :
  Forall (fun c => Cls.letter c = true) x ->
  Re.star (Re.lang (Re.Chr Cls.letter)) x.
Proof.
  induction 1 as [|c x Hc _ IH]; [constructor|].
  apply (Re.star_app _ [c] x); [by exists c|done].
Qed.

Lemma nameTail_letters sep (x y : list N) :
  Forall (fun c => Cls.letter c = true) x ->
  nameTail sep y = true -> nameTail sep (x ++ y) = true.
Proof.
  intros Hx Hy. induction Hx as [|c x Hc _ IH]; [done|].
  simpl. by rewrite Hc, IH.
Qed.

Lemma plus_letters (x : list N) :
  Re.lang (Re.plus (Re.Chr Cls.letter)) x ->
  exists c rest, x = c :: rest /\ Cls.letter c = true /\
                 Forall (fun c => Cls.letter c = true) rest.
Proof.
  intros (s1 & s2 & -> & (c & -> & Hc) & Hs). exists c, s2.
  split_and!; [done|done|]. by apply letters_star.
Qed.

Lemma nameTail_star sep (y : list N) :
  Re.star (Re.lang (Re.Seq (Re.opt (Re.Chr sep)) (Re.plus (Re.Chr Cls.letter)))) y ->
  nameTail sep y = true.
Proof.
  induction 1 as [|s1 s2 (o & l & -> & Ho & Hl) _ IH]; [done|].
  apply plus_letters in Hl as (c & rest & -> & Hc & Hrest).
  assert (nameTail sep ((c :: rest) ++ s2) = true) as Hletters
    by (apply nameTail_letters; [by constructor|done]).
  destruct Ho as [->|(d & -> & Hd)]; [done|].
  change (([d] ++ c :: rest) ++ s2) with (d :: (c :: rest) ++ s2).
  change (nameTail sep (d :: (c :: rest) ++ s2))
    with ((Cls.letter d || (sep d && Cls.letter c)) &&
          nameTail sep ((c :: rest) ++ s2)).
  rewrite Hletters, Hd, Hc. by destruct (Cls.letter d).
Qed.

Lemma star_nameTail sep (y : list N) :
  nameTail sep y = true ->
  Re.star (Re.lang (Re.Seq (Re.opt (Re.Chr sep)) (Re.plus (Re.Chr Cls.letter)))) y.
Proof.
  remember (length y) as n eqn:Hn. revert y Hn.
  induction n as [n IH] using lt_wf_ind. intros y Hn Hy.
  destruct y as [|c y]; [constructor|].
  simpl in Hy. apply andb_true_iff in Hy as [Hc Hy].
  destruct (Cls.letter c) eqn:Hl.
  - apply (Re.star_app _ [c] y).
    + exists [], [c]. split_and!; [done|by left|].
      exists [c], []. split_and!; [done|by exists c|constructor].
    + apply (IH (length y)); [simpl in Hn; lia|done|done].
  - simpl in Hc. apply andb_true_iff in Hc as [Hs Hd].
    destruct y as [|d y]; [done|].
    simpl in Hy. apply andb_true_iff in Hy as [_ Hy].
    apply (Re.star_app _ [c; d] y).
    + exists [c], [d]. split_and!; [done|right; by exists c|].
      exists [d], []. split_and!; [done|by exists d|constructor].
    + apply (IH (length y)); [simpl in Hn; lia|done|done].
Qed.

Lemma nameBody_shape sep (s : list N) :
  Re.lang (nameBody sep) s <-> nameShape sep s = true.
Proof.
  split.
  - intros (s1 & s2 & -> & (l2 & ls & -> & Hl2 & Hls) & Htail).
    destruct Hl2 as (la & lb & -> & (a & -> & Ha) & (b & -> & Hb)).
    apply letters_star in Hls. apply nameTail_star in Htail.
    simpl. rewrite Ha, Hb. simpl. by apply nameTail_letters.
  - intros Hshape. destruct s as [|a [|b rest]]; [done|done|].
    simpl in Hshape. apply andb_true_iff in Hshape as [Hab Htail].
    apply andb_true_iff in Hab as [Ha Hb].
    exists [a; b], rest. split_and!; [done| |by apply star_nameTail].
    exists [a; b], []. split_and!; [done| |constructor].
    exists [a], [b]. split_and!; [done|by exists a|by exists b].
Qed.

Lemma nameShape_tail sep (s : list N) :
  nameShape sep s = true -> nameTail sep s = true.
Proof.
  destruct s as [|a [|b rest]]; [done|done|]. simpl.
  intros Hshape. apply andb_true_iff in Hshape as [Hab Htail].
  apply andb_true_iff in Hab as [-> ->]. simpl.
  destruct rest; simpl in *; by rewrite ?Htail.
Qed.

Lemma nameTail_no_double sep (x : N) (p q : list N) :
  Cls.letter x = false -> nameTail sep (p ++ x :: x :: q) = false.
Proof.
  intros Hx. induction p as [|c p IH].
  - simpl. rewrite Hx. simpl. by rewrite andb_false_r.
  - change (nameTail sep ((c :: p) ++ x :: x :: q))
      with ((Cls.letter c ||
             (sep c && match p ++ x :: x :: q with
                       | d :: _ => Cls.letter d
                       | [] => false
                       end)) && nameTail sep (p ++ x :: x :: q)).
    rewrite IH. apply andb_false_r.
Qed.

(** What a lookahead [(?!.*XX)] looks for. *)
Lemma ahead_inv (x : string) (s : list N) :
  Re.lang (Re.Seq (Re.Seq (Re.Star Re.dot) (Re.times 2 (Re.chr x)))
                  (Re.Star Re.any)) s ->
  exists c p q, Str.lit x = [c] /\ s = p ++ c :: c :: q.
Proof.
  intros (s1 & q & -> & (p & xx & -> & _ & Hxx) & _).
  destruct Hxx as (x1 & x2 & -> & (c & -> & Hc) & (c' & -> & Hc')).
  apply bool_decide_eq_true in Hc, Hc'. exists c, p, q.
  split; [done|]. assert (c' = c) as -> by congruence.
  by rewrite <- !app_assoc.
Qed.

Lemma nameShape_not_ahead sep (x : string) (c : N) (s : list N) :
  Str.lit x = [c] -> Cls.letter c = false ->
  nameShape sep s = true ->
  ~ Re.lang (Re.Seq (Re.Seq (Re.Star Re.dot) (Re.times 2 (Re.chr x)))
                    (Re.Star Re.any)) s.
Proof.
  intros Hx Hc Hshape Hahead.
  apply ahead_inv in Hahead as (c' & p & q & Hx' & ->).
  assert (c' = c) as -> by congruence.
  apply nameShape_tail in Hshape.
  by rewrite nameTail_no_double in Hshape.
Qed.

Lemma nameTail_mono (sep sep' : N -> bool) (s : list N) :
  (forall c, sep c = true -> sep' c = true) ->
  nameTail sep s = true -> nameTail sep' s = true.
Proof.
  intros Hsep. induction s as [|c s IH]; [done|]. simpl.
  intros H. apply andb_true_iff in H as [Hc Hs]. rewrite (IH Hs), andb_true_r.
  destruct (Cls.letter c); [done|]. simpl in *.
  apply andb_true_iff in Hc as [Hc ->]. by rewrite (Hsep c Hc).
Qed.

(** X13: what the two name patterns accept, in words: a value passes when
    it starts with two letters and goes on with letters, where a separator
    (a dot or a hyphen, for a last name also an apostrophe) may stand
    before a letter.  The lookaheads of the patterns never turn a value
    down: each pattern accepts what its part behind the lookaheads
    accepts.  Every value that passes as a first name passes as a last
    name. *)
Theorem name_patterns (value : Str.t) :
  validateField value Key.firstName = nameShape (Cls.among ".-") value /\
  validateField value Key.lastName = nameShape (Cls.among ".-'") value /\
  validateField value Key.firstName = Re.matches (nameBody (Cls.among ".-")) value /\
  validateField value Key.lastName = Re.matches (nameBody (Cls.among ".-'")) value /\
  (validateField value Key.firstName = true ->
   validateField value Key.lastName = true).
Proof.
  assert (forall sep, Re.matches (nameBody sep) value = nameShape sep value)
    as Hbody.
  { intros sep. apply eq_true_iff_eq. by rewrite matches_lang, nameBody_shape. }
  assert (validateField value Key.firstName = nameShape (Cls.among ".-") value)
    as Hfirst.
  { apply eq_true_iff_eq. unfold validateField. rewrite matches_lang.
    split.
    - intros (_ & _ & Hb). by apply nameBody_shape.
    - intros Hshape.
      split; [by apply (nameShape_not_ahead (Cls.among ".-") "." 46%N)|].
      split; [by apply (nameShape_not_ahead (Cls.among ".-") "-" 45%N)|].
      by apply nameBody_shape. }
  assert (validateField value Key.lastName = nameShape (Cls.among ".-'") value)
    as Hlast.
  { apply eq_true_iff_eq. unfold validateField. rewrite matches_lang.
    split.
    - intros (_ & _ & _ & Hb). by apply nameBody_shape.
    - intros Hshape.
      split; [by apply (nameShape_not_ahead (Cls.among ".-'") "." 46%N)|].
      split; [by apply (nameShape_not_ahead (Cls.among ".-'") "-" 45%N)|].
      split; [by apply (nameShape_not_ahead (Cls.among ".-'") "'" 39%N)|].
      by apply nameBody_shape. }
  split_and!; [done|done|by rewrite Hbody|by rewrite Hbody|].
  rewrite Hfirst, Hlast. destruct value as [|a [|b rest]]; [done|done|].
  simpl. intros H. apply andb_true_iff in H as [-> Htail]. simpl.
  apply (nameTail_mono (Cls.among ".-")); [|done].
  intros c Hc. apply bool_decide_eq_true in Hc. apply bool_decide_eq_true.
  change (c ∈ [46; 45]%N) in Hc. change (c ∈ [46; 45; 39]%N).
  apply elem_of_cons in Hc as [->|Hc]; [by left|].
  apply elem_of_cons in Hc as [->|Hc]; [by right; left|].
  by apply elem_of_nil in Hc.
Qed.

(** *** The zip code pattern *)

(** X14: what the zip code pattern accepts, in words: five digits, with or
    without one white space character between the third and the fourth. *)
Theorem zipcode_pattern (value : Str.t) :
  validateField value Key.zipcode = zipShape value.
Proof.
  apply eq_true_iff_eq. unfold validateField. rewrite matches_lang. split.
  - intros (s3 & s' & -> & H3 & (o & s2 & -> & Ho & H2)).
    destruct H3 as (a' & bc & -> & (a & -> & Ha) & (b' & c' & -> & (b & -> & Hb) & (c & -> & Hc))).
    destruct H2 as (d' & e' & -> & (d & -> & Hd) & (e & -> & He)).
    destruct Ho as [->|(w & -> & Hw)]; simpl; by rewrite Ha, Hb, Hc, Hd, He.
  - intros Hshape.
    destruct value as [|a [|b [|c [|w [|d [|e [|]]]]]]]; try done.
    + simpl in Hshape.
      destruct (Str.isDigit a) eqn:Ha; [|done].
      destruct (Str.isDigit b) eqn:Hb; [|done].
      destruct (Str.isDigit c) eqn:Hc; [|done].
      destruct (Str.isDigit w) eqn:Hd; [|done].
      destruct (Str.isDigit d) eqn:He; [|done].
      exists [a; b; c], [w; d]. split_and!; [done| |].
      * exists [a], [b; c]. split_and!; [done|by exists a|].
        exists [b], [c]. split_and!; [done|by exists b|by exists c].
      * exists [], [w; d]. split_and!; [done|by left|].
        exists [w], [d]. split_and!; [done|by exists w|by exists d].
    + simpl in Hshape.
      destruct (Str.isDigit a) eqn:Ha; [|done].
      destruct (Str.isDigit b) eqn:Hb; [|done].
      destruct (Str.isDigit c) eqn:Hc; [|done].
      destruct (Str.isDigit d) eqn:Hd; [|done].
      destruct (Str.isDigit e) eqn:He; [|done].
      simpl in Hshape.
      exists [a; b; c], [w; d; e]. split_and!; [done| |].
      * exists [a], [b; c]. split_and!; [done|by exists a|].
        exists [b], [c]. split_and!; [done|by exists b|by exists c].
      * exists [w], [d; e]. split_and!; [done|right; by exists w|].
        exists [d], [e]. split_and!; [done|by exists d|by exists e].
Qed.

(** *** The order button *)

(** X15: [toggleOrderButtonActive] never enables the order button.  When a
    button exists it is disabled when the call ends, whatever the fields
    hold: a field that does not pass ends the call early, and when the six
    fields validated first all pass, the call of [validatephoneNumberField],
    a name the module does not declare, throws a [ReferenceError] before
    the button is enabled. *)
Theorem toggleOrderButtonActive_never_enables (form : Form.t)
    (orderBtn : option bool) :
  let after := toggleOrderButtonActive form orderBtn in
  after.1 = (fun _ => true) <$> orderBtn /\
  (is_Some orderBtn /\
   validateFirstNameField form && validateLastNameField form &&
   validateAdressField form && validateZipcodeField form &&
   validateCityField form && validateEmailField form = true <->
   after.2 = Throws "ReferenceError").
Proof.
  destruct orderBtn as [disabled|]; simpl.
  2:{ split; [done|]. split; [by intros [[? [=]] _]|done]. }
  unfold validOrReturn.
  change (callValidator "validateFirstNameField" form)
    with (Returns (validateFirstNameField form)).
  change (callValidator "validateLastNameField" form)
    with (Returns (validateLastNameField form)).
  change (callValidator "validateAdressField" form)
    with (Returns (validateAdressField form)).
  change (callValidator "validateZipcodeField" form)
    with (Returns (validateZipcodeField form)).
  change (callValidator "validateCityField" form)
    with (Returns (validateCityField form)).
  change (callValidator "validateEmailField" form)
    with (Returns (validateEmailField form)).
  change (callValidator "validatephoneNumberField" form)
    with (@Throws bool "ReferenceError").
  destruct (validateFirstNameField form), (validateLastNameField form),
    (validateAdressField form), (validateZipcodeField form),
    (validateCityField form), (validateEmailField form); simpl;
    (split; [done|]); split; first [done | by intros [_ [=]] | by eauto].
Qed.

(** ** A line whose quantity is zero *)

Section zero_line.
Variable now : Date.
Implicit Types (ls : list Product.t) (count : gmap string jsnum).

Lemma unitPrices_const count n ls :
  unitPrices count (fun _ => now) n ls = unitPrice count now <$> ls.
Proof.
  revert n. induction ls as [|p ls IH]; intros n; [done|].
  simpl. by rewrite IH.
Qed.

Lemma subtotals_const count start ls :
  subtotals start (unitPrice count now <$> ls) ls =
  foldl (fun acc p =>
           (acc + unitPrice count now p * toNumber (Product.amount p))%js)
        start ls.
Proof.
  revert start. induction ls as [|p ls IH]; intros start; [done|].
  unfold subtotals in *. simpl. by rewrite IH.
Qed.

Lemma foldl_ext_in {A B} (f g : A -> B -> A) (l : list B) (a : A) :
  (forall a x, x ∈ l -> f a x = g a x) -> foldl f a l = foldl g a l.
Proof.
  revert a. induction l as [|x l IH]; intros a Hfg; [done|].
  simpl. rewrite Hfg by left. apply IH. intros a' y Hy. apply Hfg. by right.
Qed.

Lemma unitPrice_number count line a :
  Product.price line = Num a -> exists u, unitPrice count now line = Num u.
Proof.
  intros Hprice. unfold unitPrice, applyBulkDiscount, priceAt. rewrite Hprice.
  destruct (isWeekendSurcharge now),
    (toNumber (count !! Product.category line) >=? BULK_THRESHOLD)%js;
    simpl; by eexists.
Qed.

Lemma add_nothing (acc : jsnum) (u : Qc) : (acc + Num u * int 0)%js = acc.
Proof.
  unfold int. rewrite Qc_of_Z_0. destruct acc as [t|]; [|done].
  simpl. f_equal. ring.
Qed.

Lemma categoryQuantity_without cat (l1 l2 : list Product.t) zero :
  quantity zero = 0%Qc ->
  categoryQuantity cat (l1 ++ zero :: l2) = categoryQuantity cat (l1 ++ l2).
Proof.
  intros Hz. unfold categoryQuantity.
  rewrite !filter_app, !fmap_app, !sumQ_app, filter_cons.
  case_decide; [|done]. simpl. rewrite Hz. f_equal. apply Qcplus_0_l.
Qed.

Variables (l1 l2 : list Product.t) (zero : Product.t).
Hypothesis Hq : Forall hasQuantity (l1 ++ zero :: l2).
Hypothesis Hzero : Product.amount zero = Some (int 0).

Lemma zero_quantity : quantity zero = 0%Qc.
Proof. unfold quantity. rewrite Hzero. apply Qc_of_Z_0. Qed.

Lemma without_hasQuantity : Forall hasQuantity (l1 ++ l2).
Proof.
  apply Forall_app in Hq as [H1 H2]. apply Forall_cons in H2 as [_ H2].
  by apply Forall_app.
Qed.

Lemma without_elem_of p : p ∈ l1 ++ l2 -> p ∈ l1 ++ zero :: l2.
Proof. rewrite !elem_of_app, elem_of_cons. tauto. Qed.

Lemma count_without p :
  p ∈ l1 ++ l2 ->
  toNumber (countCategories (l1 ++ l2) !! Product.category p) =
  toNumber (countCategories (l1 ++ zero :: l2) !! Product.category p).
Proof.
  intros Hp.
  rewrite (countCategories_line (l1 ++ l2)) by auto using without_hasQuantity.
  rewrite (countCategories_line (l1 ++ zero :: l2))
    by auto using without_elem_of.
  by rewrite categoryQuantity_without by apply zero_quantity.
Qed.

Lemma unitPrice_without p :
  p ∈ l1 ++ l2 ->
  unitPrice (countCategories (l1 ++ l2)) now p =
  unitPrice (countCategories (l1 ++ zero :: l2)) now p.
Proof. intros Hp. unfold unitPrice. by rewrite count_without. Qed.

Lemma bulkApplies_without p :
  p ∈ l1 ++ l2 ->
  bulkApplies (countCategories (l1 ++ l2)) p =
  bulkApplies (countCategories (l1 ++ zero :: l2)) p.
Proof. intros Hp. unfold bulkApplies. by rewrite count_without. Qed.

Lemma prices_without :
  unitPrice (countCategories (l1 ++ l2)) now <$> l1 ++ l2 =
  delete (length l1)
    (unitPrice (countCategories (l1 ++ zero :: l2)) now <$> l1 ++ zero :: l2).
Proof.
  rewrite <- list_fmap_delete, delete_middle.
  apply list_eq. intros k. rewrite !list_lookup_fmap.
  destruct ((l1 ++ l2) !! k) as [p|] eqn:Hk; [|done]. simpl.
  f_equal. apply unitPrice_without. by eapply list_elem_of_lookup_2.
Qed.

Lemma subtotal_without (a : Qc) :
  Product.price zero = Num a ->
  subtotals (int 0)
    (unitPrice (countCategories (l1 ++ l2)) now <$> l1 ++ l2) (l1 ++ l2) =
  subtotals (int 0)
    (unitPrice (countCategories (l1 ++ zero :: l2)) now <$> l1 ++ zero :: l2)
    (l1 ++ zero :: l2).
Proof.
  intros Hprice. rewrite !subtotals_const, !foldl_app. simpl.
  destruct (unitPrice_number (countCategories (l1 ++ zero :: l2)) zero a Hprice)
    as [u ->].
  rewrite Hzero. cbn [toNumber]. rewrite add_nothing.
  rewrite (foldl_ext_in _
    (fun acc p =>
       (acc + unitPrice (countCategories (l1 ++ zero :: l2)) now p *
              toNumber (Product.amount p))%js) l1).
  2:{ intros acc p Hp. rewrite unitPrice_without; [done|].
      apply elem_of_app. by left. }
  apply foldl_ext_in. intros acc p Hp. rewrite unitPrice_without; [done|].
  apply elem_of_app. by right.
Qed.

Lemma items_without :
  foldl (fun sum p => (sum + toNumber (Product.amount p))%js) (int 0) (l1 ++ l2) =
  foldl (fun sum p => (sum + toNumber (Product.amount p))%js) (int 0)
        (l1 ++ zero :: l2).
Proof.
  rewrite !foldl_app. simpl. rewrite Hzero. cbn [toNumber].
  assert (forall acc : jsnum, (acc + int 0)%js = acc) as Hadd.
  { intros [t|]; [|done]. unfold int. rewrite Qc_of_Z_0. simpl.
    f_equal. ring. }
  by rewrite Hadd.
Qed.

Lemma flag_without :
  existsb (bulkApplies (countCategories (l1 ++ l2))) (l1 ++ l2) =
  existsb (bulkApplies (countCategories (l1 ++ zero :: l2))) (l1 ++ zero :: l2).
Proof.
  assert (forall l, (forall p, p ∈ l -> p ∈ l1 ++ l2) ->
            existsb (bulkApplies (countCategories (l1 ++ l2))) l =
            existsb (bulkApplies (countCategories (l1 ++ zero :: l2))) l) as Hsame.
  { induction l as [|p l IH]; intros Hl; [done|]. simpl.
    rewrite bulkApplies_without by (apply Hl; left).
    rewrite IH; [done|]. intros p' Hp'. apply Hl. by right. }
  rewrite !existsb_app. simpl.
  rewrite <- !Hsame
    by (intros p Hp; apply elem_of_app; first [by left | by right]).
  destruct (bulkApplies (countCategories (l1 ++ zero :: l2)) zero) eqn:Hb;
    [|done].
  simpl. rewrite orb_true_r, <- existsb_app.
  assert (zero ∈ l1 ++ zero :: l2) as Hzin by (apply elem_of_app; right; left).
  destruct (decide (Product.category zero ∈ objectPrototypeNames))
    as [Hproto|Hplain].
  { rewrite bulkApplies_inherited in Hb by done. discriminate Hb. }
  rewrite bulkApplies_aggregate in Hb by done.
  apply bool_decide_eq_true in Hb.
  rewrite categoryQuantity_without in Hb by apply zero_quantity.
  destruct (decide (Product.category zero ∈ Product.category <$> l1 ++ l2))
    as [Hin|Hout].
  - apply list_elem_of_fmap in Hin as (p & Hcat & Hp).
    apply existsb_exists. exists p. split; [by apply list_elem_of_In|].
    rewrite bulkApplies_aggregate
      by (auto using without_hasQuantity; by rewrite <- Hcat).
    apply bool_decide_eq_true. by rewrite <- Hcat.
  - rewrite categoryQuantity_absent in Hb by done.
    rewrite <- Qc_of_Z_0 in Hb. apply (proj1 (Qc_of_Z_le 10 0)) in Hb. lia.
Qed.

(** The totals of a cart with a line of quantity zero, and without it. *)
Lemma totals_without (a : Qc) (s s' : Store) (n n' : nat) :
  Product.price zero = Num a ->
  lines s = l1 ++ zero :: l2 -> lines s' = l1 ++ l2 ->
  let t := (updateCartTotals s (fun _ => now) n).1 in
  let t' := (updateCartTotals s' (fun _ => now) n').1 in
  finalPrices t' = delete (length l1) (finalPrices t) /\
  cartTotal t' = cartTotal t /\
  bulkDiscountApplied t' = bulkDiscountApplied t /\
  discountAmount t' = discountAmount t /\
  totalAfterDiscount t' = totalAfterDiscount t /\
  itemCount t' = itemCount t /\
  shippingCost t' = shippingCost t /\
  finalTotal t' = finalTotal t /\
  cartTotalHTML t' = cartTotalHTML t.
Proof.
  intros Hprice Hs Hs'. cbv zeta. rewrite !updateCartTotals_run.
  cbn [fst categoryCount finalPrices cartTotal bulkDiscountApplied
       discountAmount totalAfterDiscount itemCount shippingCost finalTotal
       cartTotalHTML].
  rewrite Hs, Hs', !unitPrices_const.
  rewrite (subtotal_without a Hprice), items_without, flag_without,
    prices_without.
  done.
Qed.
End zero_line.

(** X16: a cart line whose quantity is zero costs nothing: at one reading
    of the clock, [updateCartTotals] computes for a cart with such a line
    the cart total, the bulk discount flag, the Monday discount, the item
    count, the freight, the final total and its text that it computes once
    the line is deleted, and the same unit price for every other line. *)
Theorem zero_quantity_line_is_free (catalog : list Product.t)
    (ops : list CartOp) (now : Date) (n n' : nat) (rowId : Z)
    (line : Product.t) :
  Forall integralOp ops ->
  0 <= rowId ->
  lines (run ops (startup catalog)) !! Z.to_nat rowId = Some line ->
  Product.amount line = Some (int 0) ->
  (exists a, Product.price line = Num a) ->
  let s := run ops (startup catalog) in
  let t := (updateCartTotals s (fun _ => now) n).1 in
  let t' := (updateCartTotals (handleDeleteCartItem rowId s) (fun _ => now) n').1 in
  finalPrices t' = delete (Z.to_nat rowId) (finalPrices t) /\
  cartTotal t' = cartTotal t /\
  bulkDiscountApplied t' = bulkDiscountApplied t /\
  discountAmount t' = discountAmount t /\
  totalAfterDiscount t' = totalAfterDiscount t /\
  itemCount t' = itemCount t /\
  shippingCost t' = shippingCost t /\
  finalTotal t' = finalTotal t /\
  cartTotalHTML t' = cartTotalHTML t.
Proof.
  intros Hops Hrow Hline Hzero [a Hprice].
  pose proof (reachable_hasQuantity catalog ops Hops) as Hq.
  pose proof (handleDelete_lines (run ops (startup catalog)) rowId
                (cartInv_run catalog ops) Hrow) as Hdel.
  pose proof (take_drop_middle _ _ _ Hline) as Hsplit.
  rewrite delete_take_drop in Hdel.
  assert (length (take (Z.to_nat rowId) (lines (run ops (startup catalog)))) =
          Z.to_nat rowId) as Hlen.
  { apply length_take_le. apply lookup_lt_Some in Hline. lia. }
  rewrite <- Hsplit in Hq.
  pose proof (totals_without now _ _ line Hq Hzero a
                (run ops (startup catalog))
                (handleDeleteCartItem rowId (run ops (startup catalog)))
                n n' Hprice (eq_sym Hsplit) Hdel) as Htotals.
  cbv zeta in Htotals. rewrite Hlen in Htotals. exact Htotals.
Qed.

Lemma zero_quantity_line_is_free_witness :
  let s := run (buyOneOfEach ++ [Decrease 11]) (startup products) in
  let sunday := mkDate 0 12 0 in
  finalTotal (updateCartTotals (handleDeleteCartItem 11 s) (fun _ => sunday) 0%nat).1 =
  finalTotal (updateCartTotals s (fun _ => sunday) 0%nat).1.
Proof.
  assert (Forall integralOp (buyOneOfEach ++ [Decrease 11])) as Hops.
  { apply (uiTrace_integral _ (startup products)). by vm_compute. }
  assert (0 <= 11) as Hrow by lia.
  destruct (lines (run (buyOneOfEach ++ [Decrease 11]) (startup products))
              !! Z.to_nat 11) as [line|] eqn:Hline;
    [|vm_compute in Hline; discriminate Hline].
  assert (Product.amount line = Some (int 0) /\
          Product.price line = Num (Qc_of_Z 59)) as [Hzero Hprice].
  { vm_compute in Hline. injection Hline as <-.
    split; [compute_done|by vm_compute]. }
  intros s sunday.
  exact (proj1 (proj2 (proj2 (proj2 (proj2 (proj2 (proj2 (proj2
    (zero_quantity_line_is_free products (buyOneOfEach ++ [Decrease 11])
       sunday 0%nat 0%nat 11 line Hops Hrow Hline Hzero
       (ex_intro _ _ Hprice)))))))))).
Defined.
